(** * iCloud+ pricing: collection pipeline and query tool

    A shallow embedding of [scripts/fetch-prices.js] (the collection
    script: fetching, scraping, price parsing, currency conversion,
    ranking) and of the JXA query script that follows it in the same
    source file (cache resolution, argument tokenization, filtering,
    ranking, flags).

    Conventions of the embedding:
    - a JavaScript number is a value of [number]: NaN, the two
      infinities, or a finite value carried as an exact rational.  The
      binary64 rounding of [*], [/] and [-] is not modelled, and neither
      is the negative zero.  The inputs on which a statement below
      shows the script departing from its description (prices 0, 6, 21
      and 0.125) are exactly representable in binary64, and the script
      computes on them without rounding error;
    - a JavaScript string is a [string] whose characters stand for
      UTF-16 code units below 256;
    - [undefined] and [null] are [None];
    - an exception is an explicit outcome, and [try]/[catch] a match. *)

From Stdlib Require Import ZArith QArith Qround Qabs Lia Lqa Bool List Ascii String.
From Stdlib Require Import Permutation Sorted.
From stdpp Require Import base option list gmap strings.

Local Open Scope string_scope.
Local Open Scope list_scope.

(** ** JavaScript numbers *)

Module Num.

Inductive number : Type :=
| NaN
| PosInf
| NegInf
| Fin (q : Q).

Definition Infinity : number := PosInf.

Definition is_zero (q : Q) : bool := (Qnum q =? 0)%Z.
Definition is_neg (q : Q) : bool := (Qnum q <? 0)%Z.

(** ToBoolean on a number: [0] and [NaN] are falsy. *)
Definition truthy (n : number) : bool :=
  match n with
  | NaN => false
  | Fin q => negb (is_zero q)
  | PosInf | NegInf => true
  end.

Definition is_finite (n : number) : bool :=
  match n with Fin _ => true | _ => false end.

(** [a - b] *)
Definition sub (a b : number) : number :=
  match a, b with
  | NaN, _ | _, NaN => NaN
  | PosInf, PosInf | NegInf, NegInf => NaN
  | PosInf, _ => PosInf
  | NegInf, _ => NegInf
  | Fin _, PosInf => NegInf
  | Fin _, NegInf => PosInf
  | Fin x, Fin y => Fin (Qred (x - y))
  end.

Definition signed_inf (negative : bool) : number :=
  if negative then NegInf else PosInf.

(** [a * b] *)
Definition mul (a b : number) : number :=
  match a, b with
  | NaN, _ | _, NaN => NaN
  | Fin x, Fin y => Fin (Qred (x * y))
  | Fin x, PosInf | PosInf, Fin x =>
      if is_zero x then NaN else signed_inf (is_neg x)
  | Fin x, NegInf | NegInf, Fin x =>
      if is_zero x then NaN else signed_inf (negb (is_neg x))
  | PosInf, PosInf | NegInf, NegInf => PosInf
  | PosInf, NegInf | NegInf, PosInf => NegInf
  end.

(** [a / b] *)
Definition div (a b : number) : number :=
  match a, b with
  | NaN, _ | _, NaN => NaN
  | Fin x, Fin y =>
      if is_zero y
      then (if is_zero x then NaN else signed_inf (is_neg x))
      else Fin (Qred (x / y))
  | Fin _, (PosInf | NegInf) => Fin 0
  | PosInf, Fin y => signed_inf (is_neg y)
  | NegInf, Fin y => signed_inf (negb (is_neg y))
  | (PosInf | NegInf), (PosInf | NegInf) => NaN
  end.

(** [a < b]; false as soon as one side is NaN. *)
Definition ltb (a b : number) : bool :=
  match a, b with
  | NaN, _ | _, NaN => false
  | _, NegInf => false
  | NegInf, _ => true
  | PosInf, _ => false
  | Fin _, PosInf => true
  | Fin x, Fin y => match (x ?= y)%Q with Lt => true | _ => false end
  end.

(** [Math.round]: the closest integer, a tie going to the larger one. *)
Definition Math_round (n : number) : number :=
  match n with
  | Fin q => Fin (inject_Z (Qfloor (q + (1 # 2))))
  | _ => n
  end.

Definition of_Z (z : Z) : number := Fin (inject_Z z).

End Num.

Export Num.

(** ** JavaScript strings *)

Module Str.

Definition code (c : ascii) : nat := nat_of_ascii c.

Definition is_digit (c : ascii) : bool :=
  (48 <=? code c)%nat && (code c <=? 57)%nat.

(** The white space of [\s], [trim] and [parseFloat], below code 256. *)
Definition is_space (c : ascii) : bool :=
  let n := code c in
  ((9 <=? n)%nat && (n <=? 13)%nat) || (n =? 32)%nat || (n =? 160)%nat.

Definition digit_val (c : ascii) : Z := Z.of_nat (code c - 48).

Fixpoint filter (f : ascii -> bool) (s : string) : string :=
  match s with
  | EmptyString => EmptyString
  | String c s' => if f c then String c (filter f s') else filter f s'
  end.

Fixpoint map (f : ascii -> ascii) (s : string) : string :=
  match s with
  | EmptyString => EmptyString
  | String c s' => String (f c) (map f s')
  end.

(** [s.split(sep)] for a one-character separator: never empty. *)
Fixpoint split (sep : ascii) (s : string) : list string :=
  match s with
  | EmptyString => [EmptyString]
  | String c s' =>
      if Ascii.eqb c sep then EmptyString :: split sep s'
      else match split sep s' with
           | p :: ps => String c p :: ps
           | [] => [String c EmptyString]
           end
  end.

(** [parts.join('')] *)
Definition join (parts : list string) : string :=
  fold_right String.append EmptyString parts.

(** Case mapping of the code units below 256.  Three lower-case
    letters have their capital outside that range (181, 223, 255); they
    are left as they are. *)
Definition is_lower (n : nat) : bool :=
  ((97 <=? n)%nat && (n <=? 122)%nat)
  || ((224 <=? n)%nat && (n <=? 254)%nat && negb (n =? 247)%nat).

Definition is_upper (n : nat) : bool :=
  ((65 <=? n)%nat && (n <=? 90)%nat)
  || ((192 <=? n)%nat && (n <=? 222)%nat && negb (n =? 215)%nat).

Definition upper_char (c : ascii) : ascii :=
  let n := code c in
  if is_lower n then ascii_of_nat (n - 32) else c.

Definition lower_char (c : ascii) : ascii :=
  let n := code c in
  if is_upper n then ascii_of_nat (n + 32) else c.

Definition toUpperCase : string -> string := map upper_char.
Definition toLowerCase : string -> string := map lower_char.

Fixpoint starts_with (p s : string) : bool :=
  match p, s with
  | EmptyString, _ => true
  | String a p', String b s' => Ascii.eqb a b && starts_with p' s'
  | String _ _, EmptyString => false
  end.

(** [s.indexOf(q) !== -1] *)
Fixpoint includes (q s : string) : bool :=
  starts_with q s ||
  match s with
  | EmptyString => false
  | String _ s' => includes q s'
  end.

Fixpoint skip_spaces (s : string) : string :=
  match s with
  | String c s' => if is_space c then skip_spaces s' else s
  | EmptyString => EmptyString
  end.

(** Reads the longest run of decimal digits at the head of [s]: the
    accumulated value, the number of digits read, and the rest. *)
Fixpoint read_digits (acc : Z) (n : nat) (s : string) : Z * nat * string :=
  match s with
  | String c s' =>
      if is_digit c then read_digits (10 * acc + digit_val c)%Z (S n) s'
      else (acc, n, s)
  | EmptyString => (acc, n, s)
  end.

Definition read_sign (s : string) : bool * string :=
  match s with
  | String "-" s' => (true, s')
  | String "+" s' => (false, s')
  | _ => (false, s)
  end.

(** The exponent part [e], [E] followed by an optional sign and at least
    one digit; anything else is not part of the literal. *)
Definition read_exponent (s : string) : Z :=
  match s with
  | String c s' =>
      if Ascii.eqb c "e" || Ascii.eqb c "E" then
        let '(negative, s'') := read_sign s' in
        let '(e, n, _) := read_digits 0 0 s'' in
        match n with
        | O => 0%Z
        | S _ => if negative then (- e)%Z else e
        end
      else 0%Z
  | EmptyString => 0%Z
  end.

Definition pow10 (e : Z) : Q :=
  if (0 <=? e)%Z then inject_Z (10 ^ e) else / inject_Z (10 ^ (- e)).

(** [parseFloat]: the value of the longest prefix of the trimmed string
    that is a decimal literal, NaN when there is none. *)
Definition parseFloat (s : string) : number :=
  let '(negative, s1) := read_sign (skip_spaces s) in
  if starts_with "Infinity" s1 then signed_inf negative
  else
    let '(ip, ni, s2) := read_digits 0 0 s1 in
    let '(m, nf, s3) :=
      match s2 with
      | String "." s2' => read_digits ip 0 s2'
      | _ => (ip, O, s2)
      end in
    match (ni + nf)%nat with
    | O => NaN
    | S _ =>
        let e := (read_exponent s3 - Z.of_nat nf)%Z in
        let v := (inject_Z m * pow10 e)%Q in
        Fin (Qred (if negative then - v else v))
    end.

(** [argv.join(sep)] *)
Fixpoint join_with (sep : string) (parts : list string) : string :=
  match parts with
  | [] => EmptyString
  | [p] => p
  | p :: rest => p ++ sep ++ join_with sep rest
  end.

Fixpoint rev_onto (acc s : string) : string :=
  match s with
  | EmptyString => acc
  | String c s' => rev_onto (String c acc) s'
  end.

Definition rev (s : string) : string := rev_onto EmptyString s.

Definition trim (s : string) : string :=
  rev (skip_spaces (rev (skip_spaces s))).

Definition head_is_space (s : string) : bool :=
  match s with
  | String c _ => is_space c
  | EmptyString => false
  end.

(** [s.split(/\s+/)]: cuts at every maximal run of white space. *)
Fixpoint split_spaces (s : string) : list string :=
  match s with
  | EmptyString => [EmptyString]
  | String c s' =>
      if is_space c then
        if head_is_space s' then split_spaces s'
        else EmptyString :: split_spaces s'
      else match split_spaces s' with
           | p :: ps => String c p :: ps
           | [] => [String c EmptyString]
           end
  end.

End Str.

(** ** The collection script *)

(** [parsePrice]: keeps digits, dots and commas, turns commas into dots,
    and when more than two dot-separated parts remain glues all but the
    last into the integer part. *)
Definition keep_price_char (c : ascii) : bool :=
  Str.is_digit c || Ascii.eqb c "." || Ascii.eqb c ",".

Definition comma_to_dot (c : ascii) : ascii :=
  if Ascii.eqb c "," then "."%char else c.

Definition cleaned (priceStr : string) : string :=
  Str.map comma_to_dot (Str.filter keep_price_char priceStr).

Definition parsePrice (priceStr : string) : number :=
  let parts := Str.split "." (cleaned priceStr) in
  if (2 <? length parts)%nat then
    let last := List.last parts EmptyString in
    Str.parseFloat (Str.join (removelast parts) ++ "." ++ last)
  else Str.parseFloat (cleaned priceStr).

(** *** Data model *)

(** What the price source yields: a plan is [{ Name, Price }]. *)
Module Raw.
Record plan : Type := { Name : string; Price : number }.
Record region : Type :=
  { CountryISO : string; Country : string; Currency : string;
    Plans : list plan }.
End Raw.

(** The persisted shape: every plan also carries [PriceInCNY]. *)
Record plan : Type :=
  { Name : string; Price : number; PriceInCNY : number }.

Record region : Type :=
  { CountryISO : string; Country : string; Currency : string;
    Plans : list plan }.

Record dataset : Type :=
  { lastUpdated : string; source : string; regions : list region }.

(** The rate table [json.rates]: an object used as a map. *)
Abbreviation rate_table := (gmap string number).

(** A number written as a decimal literal in the source. *)
Definition lit (s : string) : number := Str.parseFloat s.

Definition P (name price : string) : Raw.plan :=
  {| Raw.Name := name; Raw.Price := lit price |}.

Definition R (iso country currency : string) (plans : list Raw.plan)
  : Raw.region :=
  {| Raw.CountryISO := iso; Raw.Country := country;
     Raw.Currency := currency; Raw.Plans := plans |}.

Definition getFallbackData : list Raw.region :=
  [
    R "US" "United States" "USD"
      [P "50GB" "0.99"; P "200GB" "2.99"; P "2TB" "9.99"; P "6TB" "29.99"; P "12TB" "59.99"];
    R "CN" "China" "CNY"
      [P "50GB" "6"; P "200GB" "21"; P "2TB" "68"; P "6TB" "198"; P "12TB" "398"];
    R "JP" "Japan" "JPY"
      [P "50GB" "150"; P "200GB" "450"; P "2TB" "1500"; P "6TB" "4500"; P "12TB" "9000"];
    R "GB" "United Kingdom" "GBP"
      [P "50GB" "0.99"; P "200GB" "2.99"; P "2TB" "8.99"; P "6TB" "26.99"; P "12TB" "54.99"];
    R "DE" "Germany" "EUR"
      [P "50GB" "0.99"; P "200GB" "2.99"; P "2TB" "9.99"; P "6TB" "29.99"; P "12TB" "59.99"];
    R "FR" "France" "EUR"
      [P "50GB" "0.99"; P "200GB" "2.99"; P "2TB" "9.99"; P "6TB" "29.99"; P "12TB" "59.99"];
    R "AU" "Australia" "AUD"
      [P "50GB" "1.49"; P "200GB" "4.49"; P "2TB" "14.99"; P "6TB" "44.99"; P "12TB" "89.99"];
    R "CA" "Canada" "CAD"
      [P "50GB" "1.29"; P "200GB" "3.99"; P "2TB" "12.99"; P "6TB" "39.99"; P "12TB" "79.99"];
    R "KR" "South Korea" "KRW"
      [P "50GB" "1100"; P "200GB" "3300"; P "2TB" "11000"; P "6TB" "33000"; P "12TB" "66000"];
    R "HK" "Hong Kong" "HKD"
      [P "50GB" "8"; P "200GB" "23"; P "2TB" "78"; P "6TB" "233"; P "12TB" "468"];
    R "TW" "Taiwan" "TWD"
      [P "50GB" "30"; P "200GB" "90"; P "2TB" "300"; P "6TB" "900"; P "12TB" "1800"];
    R "SG" "Singapore" "SGD"
      [P "50GB" "1.28"; P "200GB" "3.98"; P "2TB" "12.98"; P "6TB" "38.98"; P "12TB" "78.98"];
    R "IN" "India" "INR"
      [P "50GB" "75"; P "200GB" "219"; P "2TB" "749"; P "6TB" "2249"; P "12TB" "4499"];
    R "RU" "Russia" "RUB"
      [P "50GB" "59"; P "200GB" "149"; P "2TB" "599"; P "6TB" "1790"; P "12TB" "3590"];
    R "TR" "Turkey" "TRY"
      [P "50GB" "14.99"; P "200GB" "44.99"; P "2TB" "149.99"; P "6TB" "449.99"; P "12TB" "899.99"];
    R "BR" "Brazil" "BRL"
      [P "50GB" "3.50"; P "200GB" "10.90"; P "2TB" "34.90"; P "6TB" "104.90"; P "12TB" "209.90"];
    R "MX" "Mexico" "MXN"
      [P "50GB" "17"; P "200GB" "49"; P "2TB" "179"; P "6TB" "529"; P "12TB" "1049"];
    R "ID" "Indonesia" "IDR"
      [P "50GB" "15000"; P "200GB" "45000"; P "2TB" "149000"; P "6TB" "449000"; P "12TB" "899000"];
    R "TH" "Thailand" "THB"
      [P "50GB" "35"; P "200GB" "99"; P "2TB" "349"; P "6TB" "1049"; P "12TB" "2099"];
    R "MY" "Malaysia" "MYR"
      [P "50GB" "3.90"; P "200GB" "11.90"; P "2TB" "39.90"; P "6TB" "119.90"; P "12TB" "239.90"];
    R "PH" "Philippines" "PHP"
      [P "50GB" "49"; P "200GB" "149"; P "2TB" "499"; P "6TB" "1490"; P "12TB" "2990"];
    R "VN" "Vietnam" "VND"
      [P "50GB" "19000"; P "200GB" "59000"; P "2TB" "199000"; P "6TB" "599000"; P "12TB" "1190000"];
    R "AE" "United Arab Emirates" "AED"
      [P "50GB" "3.99"; P "200GB" "10.99"; P "2TB" "36.99"; P "6TB" "109.99"; P "12TB" "219.99"];
    R "SA" "Saudi Arabia" "SAR"
      [P "50GB" "3.99"; P "200GB" "10.99"; P "2TB" "36.99"; P "6TB" "109.99"; P "12TB" "219.99"];
    R "ZA" "South Africa" "ZAR"
      [P "50GB" "14.99"; P "200GB" "44.99"; P "2TB" "149.99"; P "6TB" "449.99"; P "12TB" "899.99"];
    R "IL" "Israel" "ILS"
      [P "50GB" "3.90"; P "200GB" "10.90"; P "2TB" "34.90"; P "6TB" "109.90"; P "12TB" "219.90"];
    R "PL" "Poland" "PLN"
      [P "50GB" "3.99"; P "200GB" "11.99"; P "2TB" "39.99"; P "6TB" "119.99"; P "12TB" "239.99"];
    R "SE" "Sweden" "SEK"
      [P "50GB" "9"; P "200GB" "29"; P "2TB" "99"; P "6TB" "299"; P "12TB" "599"];
    R "NO" "Norway" "NOK"
      [P "50GB" "12"; P "200GB" "35"; P "2TB" "119"; P "6TB" "355"; P "12TB" "709"];
    R "DK" "Denmark" "DKK"
      [P "50GB" "7"; P "200GB" "19"; P "2TB" "69"; P "6TB" "199"; P "12TB" "399"];
    R "CH" "Switzerland" "CHF"
      [P "50GB" "1"; P "200GB" "3"; P "2TB" "10"; P "6TB" "30"; P "12TB" "60"];
    R "NZ" "New Zealand" "NZD"
      [P "50GB" "1.69"; P "200GB" "4.99"; P "2TB" "16.99"; P "6TB" "49.99"; P "12TB" "99.99"];
    R "CL" "Chile" "CLP"
      [P "50GB" "800"; P "200GB" "2500"; P "2TB" "7900"; P "6TB" "23900"; P "12TB" "47900"];
    R "CO" "Colombia" "COP"
      [P "50GB" "3400"; P "200GB" "10900"; P "2TB" "34900"; P "6TB" "104900"; P "12TB" "209900"];
    R "PE" "Peru" "PEN"
      [P "50GB" "2.90"; P "200GB" "9.90"; P "2TB" "34.90"; P "6TB" "99.90"; P "12TB" "199.90"];
    R "EG" "Egypt" "EGP"
      [P "50GB" "24.99"; P "200GB" "74.99"; P "2TB" "249.99"; P "6TB" "749.99"; P "12TB" "1499.99"];
    R "NG" "Nigeria" "NGN"
      [P "50GB" "900"; P "200GB" "2900"; P "2TB" "9900"; P "6TB" "29900"; P "12TB" "59900"];
    R "PK" "Pakistan" "PKR"
      [P "50GB" "200"; P "200GB" "600"; P "2TB" "2000"; P "6TB" "6000"; P "12TB" "12000"]
  ].

(** *** fetchURL

    What one [https.get] ends in: a response with its status code, its
    [location] header and its body, an [error] event, or a [timeout]
    event.  The network answers a URL the same way each time it is
    asked. *)
Inductive response : Type :=
| Answered (statusCode : Z) (location : option string) (body : string)
| Failed
| TimedOut.

(** The error a rejected fetch carries. *)
Inductive fetch_error : Type :=
| HttpStatus (statusCode : Z)
| RequestError
| RequestTimeout.

Inductive settled : Type :=
| Resolved (data : string)
| Rejected (err : fetch_error).

(** The redirect target of a response: a 3xx status with a non-empty
    [location] header. *)
Definition redirect (r : response) : option string :=
  match r with
  | Answered statusCode location _ =>
      if (300 <=? statusCode)%Z && (statusCode <? 400)%Z
      then match location with
           | Some EmptyString | None => None
           | Some url => Some url
           end
      else None
  | _ => None
  end.

(** [fetchURL]: how the promise settles within [fuel] requests, [None]
    while it is still pending. *)
Fixpoint fetchURL (fuel : nat) (net : string -> response) (url : string)
  : option settled :=
  match fuel with
  | O => None
  | S fuel' =>
      match redirect (net url) with
      | Some location => fetchURL fuel' net location
      | None =>
          match net url with
          | Answered statusCode _ body =>
              if (statusCode =? 200)%Z then Some (Resolved body)
              else Some (Rejected (HttpStatus statusCode))
          | Failed => Some (Rejected RequestError)
          | TimedOut => Some (Rejected RequestTimeout)
          end
      end
  end.

(** *** The scraper

    What cheerio hands to [parseApplePricing]: for every [h3], [h4] or
    [strong] element, in document order, its text and the texts of the
    [li] elements under the [ul] or [ol] that directly follows it (none
    when no list follows). *)
Record heading : Type :=
  { heading_text : string; list_items : list string }.

Definition CURRENCY_TO_ISO : list (string * string) :=
  [ ("USD", "US"); ("CAD", "CA"); ("MXN", "MX"); ("BRL", "BR"); ("CLP", "CL");
    ("COP", "CO"); ("PEN", "PE"); ("EUR", "EU"); ("GBP", "GB"); ("CHF", "CH");
    ("SEK", "SE"); ("NOK", "NO"); ("DKK", "DK"); ("PLN", "PL"); ("CZK", "CZ");
    ("HUF", "HU"); ("RON", "RO"); ("BGN", "BG"); ("HRK", "HR"); ("RUB", "RU");
    ("TRY", "TR"); ("ILS", "IL"); ("AED", "AE"); ("SAR", "SA"); ("ZAR", "ZA");
    ("EGP", "EG"); ("NGN", "NG"); ("KES", "KE"); ("AUD", "AU"); ("NZD", "NZ");
    ("JPY", "JP"); ("CNY", "CN"); ("HKD", "HK"); ("TWD", "TW"); ("KRW", "KR");
    ("SGD", "SG"); ("MYR", "MY"); ("THB", "TH"); ("IDR", "ID"); ("PHP", "PH");
    ("VND", "VN"); ("INR", "IN"); ("PKR", "PK"); ("BDT", "BD"); ("LKR", "LK") ].

Definition COUNTRY_TO_ISO : list (string * string) :=
  [ ("United States", "US"); ("Canada", "CA"); ("Mexico", "MX"); ("Brazil", "BR");
    ("Chile", "CL"); ("Colombia", "CO"); ("Peru", "PE"); ("Argentina", "AR");
    ("Bahamas", "BS"); ("Barbados", "BB"); ("Suriname", "SR");
    ("United Kingdom", "GB"); ("Germany", "DE"); ("France", "FR"); ("Italy", "IT");
    ("Spain", "ES"); ("Netherlands", "NL"); ("Belgium", "BE"); ("Austria", "AT");
    ("Switzerland", "CH"); ("Sweden", "SE"); ("Norway", "NO"); ("Denmark", "DK");
    ("Finland", "FI"); ("Ireland", "IE"); ("Portugal", "PT"); ("Poland", "PL");
    ("Czech Republic", "CZ"); ("Czechia", "CZ"); ("Hungary", "HU"); ("Romania", "RO");
    ("Bulgaria", "BG"); ("Croatia", "HR"); ("Greece", "GR"); ("Slovakia", "SK");
    ("Slovenia", "SI"); ("Estonia", "EE"); ("Latvia", "LV"); ("Lithuania", "LT");
    ("Luxembourg", "LU"); ("Malta", "MT"); ("Cyprus", "CY"); ("Iceland", "IS");
    ("Russia", "RU"); ("Ukraine", "UA"); ("Turkey", "TR");
    (String "T" (String "252" "rkiye"), "TR");
    ("Israel", "IL"); ("United Arab Emirates", "AE"); ("Saudi Arabia", "SA");
    ("Qatar", "QA"); ("Kuwait", "KW"); ("Bahrain", "BH"); ("Oman", "OM");
    ("South Africa", "ZA"); ("Egypt", "EG"); ("Nigeria", "NG"); ("Kenya", "KE");
    ("Morocco", "MA"); ("Tunisia", "TN"); ("Algeria", "DZ");
    ("Australia", "AU"); ("New Zealand", "NZ"); ("Japan", "JP");
    ("China", "CN"); ("China mainland", "CN"); ("Hong Kong", "HK"); ("Taiwan", "TW");
    ("South Korea", "KR"); ("Korea", "KR"); ("Singapore", "SG"); ("Malaysia", "MY");
    ("Thailand", "TH"); ("Indonesia", "ID"); ("Philippines", "PH"); ("Vietnam", "VN");
    ("India", "IN"); ("Pakistan", "PK"); ("Bangladesh", "BD"); ("Sri Lanka", "LK");
    ("Nepal", "NP"); ("Cambodia", "KH"); ("Laos", "LA"); ("Myanmar", "MM") ].

(** [table[key]] on one of the two tables, for the keys the table
    itself holds; the names an object inherits ([constructor],
    [toString], ...) are not looked at. *)
Fixpoint table_get (table : list (string * string)) (key : string)
  : option string :=
  match table with
  | [] => None
  | (k, v) :: rest => if String.eqb k key then Some v else table_get rest key
  end.

(** The characters [.] does not match. *)
Definition is_line_terminator (c : ascii) : bool :=
  (Str.code c =? 10)%nat || (Str.code c =? 13)%nat.

(** [\w] *)
Definition is_word (c : ascii) : bool :=
  let n := Str.code c in
  Str.is_digit c
  || ((65 <=? n)%nat && (n <=? 90)%nat)
  || ((97 <=? n)%nat && (n <=? 122)%nat)
  || (n =? 95)%nat.

(** [[:\s]] *)
Definition is_separator (c : ascii) : bool :=
  Ascii.eqb c ":" || Str.is_space c.

(** The longest prefix of characters passing [f], and the rest. *)
Fixpoint span (f : ascii -> bool) (s : string) : string * string :=
  match s with
  | String c s' =>
      if f c then let '(run, rest) := span f s' in (String c run, rest)
      else (EmptyString, s)
  | EmptyString => (EmptyString, EmptyString)
  end.

(** [\s*\((\w{3})\)$] at the head of [s].  The white space is taken
    greedily: giving some of it back leaves white space where the
    bracket is due. *)
Definition currency_suffix (s : string) : option string :=
  match Str.skip_spaces s with
  | String open (String a (String b (String c (String close EmptyString)))) =>
      if Ascii.eqb open "(" && is_word a && is_word b && is_word c
         && Ascii.eqb close ")"
      then Some (String a (String b (String c EmptyString)))
      else None
  | _ => None
  end.

(** [text.match(/^(.+?)\s*\((\w{3})\)$/)]: the country name and the
    currency.  The name is tried with one character, then with one more,
    and so on, each of them a character [.] matches. *)
Fixpoint header_match (text : string) : option (string * string) :=
  match text with
  | EmptyString => None
  | String c rest =>
      if is_line_terminator c then None
      else
        match currency_suffix rest with
        | Some currency => Some (String c EmptyString, currency)
        | None =>
            match header_match rest with
            | Some (name, currency) => Some (String c name, currency)
            | None => None
            end
        end
  end.

(** [(GB|TB)] under the flag [i]. *)
Definition unit_at (s : string) : option (string * string) :=
  match s with
  | String g (String b rest) =>
      if (Ascii.eqb g "G" || Ascii.eqb g "g" || Ascii.eqb g "T" || Ascii.eqb g "t")
         && (Ascii.eqb b "B" || Ascii.eqb b "b")
      then Some (String g (String b EmptyString), rest)
      else None
  | _ => None
  end.

(** [(.+)] at the end of the pattern: everything up to the first line
    terminator, at least one character. *)
Definition rest_of_line (s : string) : option string :=
  match fst (span (fun c => negb (is_line_terminator c)) s) with
  | EmptyString => None
  | line => Some line
  end.

(** [[:\s]+(.+)]: the separators are taken greedily and given back one
    at a time until [.+] has a character to start with. *)
Fixpoint separator_then_price (s : string) : option string :=
  match s with
  | String c s' =>
      if is_separator c then
        match separator_then_price s' with
        | Some price => Some price
        | None => rest_of_line s'
        end
      else None
  | EmptyString => None
  end.

(** The pattern [(\d+)\s*(GB|TB)[:\s]+(.+)] at the head of [s].  Fewer
    digits or less white space than the longest run leave a digit or a
    white-space character where the unit is due. *)
Definition plan_at (s : string) : option (string * string * string) :=
  let '(size, rest) := span Str.is_digit s in
  match size with
  | EmptyString => None
  | _ =>
      match unit_at (Str.skip_spaces rest) with
      | Some (unit, rest') =>
          match separator_then_price rest' with
          | Some priceStr => Some (size, unit, priceStr)
          | None => None
          end
      | None => None
      end
  end.

(** [text.match(/(\d+)\s*(GB|TB)[:\s]+(.+)/i)]: the first position at
    which the pattern matches. *)
Fixpoint plan_match (text : string) : option (string * string * string) :=
  match plan_at text with
  | Some m => Some m
  | None =>
      match text with
      | String _ text' => plan_match text'
      | EmptyString => None
      end
  end.

Definition isNaN (n : number) : bool :=
  match n with NaN => true | _ => false end.

(** [s.substring(0, 2)] *)
Definition first_two (s : string) : string :=
  match s with
  | String a (String b _) => String a (String b EmptyString)
  | _ => s
  end.

(** The body of [priceList.each]: the plan an [li] adds, if any. *)
Definition scrapePlan (li : string) : option Raw.plan :=
  match plan_match (Str.trim li) with
  | Some (size, unit, priceStr) =>
      let name := (size ++ Str.toUpperCase unit)%string in
      let price := parsePrice priceStr in
      if isNaN price then None
      else Some {| Raw.Name := name; Raw.Price := price |}
  | None => None
  end.

(** The body of [$('h3, h4, strong').each]: the region a heading adds,
    if any. *)
Definition scrapeHeading (header : heading) : option Raw.region :=
  match header_match (Str.trim (heading_text header)) with
  | None => None
  | Some (countryName, currency) =>
      let countryISO :=
        match table_get COUNTRY_TO_ISO (Str.trim countryName) with
        | Some iso => iso
        | None =>
            match table_get CURRENCY_TO_ISO currency with
            | Some iso => iso
            | None => first_two currency
            end
        end in
      match list_items header with
      | [] => None
      | priceList =>
          match omap scrapePlan priceList with
          | [] => None
          | plans =>
              Some {| Raw.CountryISO := countryISO;
                      Raw.Country := Str.trim countryName;
                      Raw.Currency := currency;
                      Raw.Plans := plans |}
          end
      end
  end.

(** [parseApplePricing].  The second pass over the tables of the page,
    taken when the first found nothing, has an empty body. *)
Definition parseApplePricing (page : list heading) : list Raw.region :=
  omap scrapeHeading page.

(** *** Conversion *)

(** What [console.warn] receives. *)
Inductive warning : Type :=
| RateNotFound (currency : string).

(** [convertToCNY]: the returned number and the warnings it logs. *)
Definition convertToCNY (price : number) (currency : string)
    (rates : rate_table) : number * list warning :=
  if String.eqb currency "CNY" then (price, [])
  else
    match rates !! currency, rates !! "CNY" with
    | Some usdRate, Some cnyRate =>
        if negb (truthy usdRate) || negb (truthy cnyRate)
        then (price, [RateNotFound currency])
        else
          let priceInUSD := div price usdRate in
          (mul priceInUSD cnyRate, [])
    | _, _ => (price, [RateNotFound currency])
    end.

(** [Math.round(x * 100) / 100] *)
Definition round2 (x : number) : number :=
  div (Math_round (mul x (of_Z 100))) (of_Z 100).

(** [list.map(f)] for an [f] that may log. *)
Fixpoint map_log {A B : Type} (f : A -> B * list warning) (l : list A)
  : list B * list warning :=
  match l with
  | [] => ([], [])
  | x :: l' =>
      let '(y, w) := f x in
      let '(ys, ws) := map_log f l' in
      (y :: ys, w ++ ws)
  end.

Definition normalizePlan (rates : rate_table) (currency : string)
    (p : Raw.plan) : plan * list warning :=
  let '(v, w) := convertToCNY (Raw.Price p) currency rates in
  ({| Name := Raw.Name p; Price := Raw.Price p; PriceInCNY := round2 v |}, w).

Definition normalizeRegion (rates : rate_table) (r : Raw.region)
  : region * list warning :=
  let '(ps, w) := map_log (normalizePlan rates (Raw.Currency r)) (Raw.Plans r) in
  ({| CountryISO := Raw.CountryISO r; Country := Raw.Country r;
      Currency := Raw.Currency r; Plans := ps |}, w).

(** *** Array.prototype.sort

    The sort is stable.  An element moves in front of another exactly
    when the comparator answers a number below zero for the pair (a NaN
    answer counts as zero).  The model inserts each element, in array
    order, into the sorted prefix, in front of the first element it is
    smaller than; for a consistent comparator every stable sort returns
    this same array. *)

Section Sort.
Context {A : Type} (comparefn : A -> A -> number).

Definition goes_before (x y : A) : bool := ltb (comparefn x y) (Fin 0).

Fixpoint insert_sorted (x : A) (sorted : list A) : list A :=
  match sorted with
  | [] => [x]
  | y :: rest =>
      if goes_before x y then x :: y :: rest
      else y :: insert_sorted x rest
  end.

Fixpoint sort_from (sorted l : list A) : list A :=
  match l with
  | [] => sorted
  | x :: rest => sort_from (insert_sorted x sorted) rest
  end.

Definition sort (l : list A) : list A := sort_from [] l.
End Sort.

(** [x || y] where [x] may be [undefined]. *)
Definition or_else (x : option number) (y : number) : number :=
  match x with
  | Some n => if truthy n then n else y
  | None => y
  end.

(** [plans.find(p => p.Name === name)] *)
Definition find_plan (name : string) (plans : list plan) : option plan :=
  List.find (fun p => String.eqb (Name p) name) plans.

(** The comparator of the dataset sort in [main]. *)
Definition compare50GB (a b : region) : number :=
  let priceA := or_else (PriceInCNY <$> find_plan "50GB" (Plans a)) Infinity in
  let priceB := or_else (PriceInCNY <$> find_plan "50GB" (Plans b)) Infinity in
  sub priceA priceB.

(** *** main *)

(** What the run finds outside: the rate table and the scraped regions
    ([None] when the fetch or the parse throws), the clock, the flag. *)
Record collect_env : Type :=
  { env_rates : option rate_table;
    env_scraped : option (list Raw.region);
    env_now : string;
    env_dry_run : bool }.

Inductive outcome : Type :=
| Written (d : dataset)
| DryRun (d : dataset)
| Exit (code : Z).

Definition main (env : collect_env) : outcome * list warning :=
  match env_rates env with
  | None => (Exit 1, [])
  | Some rates =>
      (* the log line evaluates rates.CNY.toFixed(4) *)
      match rates !! "CNY" with
      | None => (Exit 1, [])
      | Some _ =>
          let regions :=
            match env_scraped env with
            | Some regions =>
                if (length regions =? 0)%nat then getFallbackData else regions
            | None => getFallbackData
            end in
          let '(converted, w) := map_log (normalizeRegion rates) regions in
          let result :=
            {| lastUpdated := env_now env;
               source := "Apple Support + ExchangeRate-API";
               regions := sort compare50GB converted |} in
          (if env_dry_run env then DryRun result else Written result, w)
      end
  end.

(** ** The query script *)

Module Config.
Definition dataURL : string :=
  "https://raw.githubusercontent.com/YOUR_USERNAME/icloud-pricing/main/data/prices.json".
(** milliseconds *)
Definition cacheTTL : Z := 3600 * 1000.
End Config.

Definition PLAN_TYPES : list string := ["50gb"; "200gb"; "2tb"; "6tb"; "12tb"].

(** *** The outside world of the resolver

    Files are looked up by path; [mtime] is the modification time in
    milliseconds since the epoch, as [getFileMtime] reports it, taken
    to the whole millisecond like the clock of [Date.now()].  The calls
    through the Objective-C bridge report a failure by a null result,
    as the source expects of them; they do not throw.  [remote] is what
    curl prints for the data URL, [None] when it exits with an error.
    [cacheDir] and [workflowDir] are what [getCacheDir()] and
    [getWorkflowDir()] read from the process environment.  The [trace]
    records the file and network operations performed, latest first. *)

Record file : Type := { content : string; mtime : Z }.

Inductive event : Type :=
| EnsureDir (path : string)
| Stat (path : string)
| ReadFile (path : string)
| WriteFile (path : string)
| FetchRemote (url : string).

Record world : Type :=
  { files : gmap string file;
    remote : option string;
    clock : Z;
    cacheDir : string;
    workflowDir : string;
    trace : list event }.

Definition log (e : event) (w : world) : world :=
  {| files := files w; remote := remote w; clock := clock w;
     cacheDir := cacheDir w; workflowDir := workflowDir w;
     trace := e :: trace w |}.

Definition set_files (fs : gmap string file) (w : world) : world :=
  {| files := fs; remote := remote w; clock := clock w;
     cacheDir := cacheDir w; workflowDir := workflowDir w;
     trace := trace w |}.

(** *** Computations that read and write the world and may throw *)

Inductive result (A : Type) : Type :=
| Ok (a : A)
| Thrown.
Arguments Ok {A} a.
Arguments Thrown {A}.

Definition M (A : Type) : Type := world -> result A * world.

Definition ret {A : Type} (a : A) : M A := fun w => (Ok a, w).

Definition bind {A B : Type} (m : M A) (k : A -> M B) : M B :=
  fun w =>
    match m w with
    | (Ok a, w') => k a w'
    | (Thrown, w') => (Thrown, w')
    end.

Definition throw {A : Type} : M A := fun w => (Thrown, w).

(** [try { body } catch (e) { handler }]: what [body] did to the world
    before it threw stays done. *)
Definition try_catch {A : Type} (body handler : M A) : M A :=
  fun w =>
    match body w with
    | (Ok a, w') => (Ok a, w')
    | (Thrown, w') => handler w'
    end.

Declare Scope js_scope.
Delimit Scope js_scope with js.
Notation "x <- m ;; k" := (bind m (fun x => k))
  (at level 100, m at next level, right associativity) : js_scope.
Notation "m ;;; k" := (bind m (fun _ => k))
  (at level 100, right associativity) : js_scope.
Local Open Scope js_scope.

(** A string in a condition: the empty one is falsy, like [null]. *)
Definition nonempty (s : option string) : option string :=
  match s with
  | Some EmptyString => None
  | _ => s
  end.

Definition ensureDir (path : string) : M unit :=
  fun w => (Ok tt, log (EnsureDir path) w).

Definition Date_now : M Z := fun w => (Ok (clock w), w).

Definition readFile (path : string) : M (option string) :=
  fun w => (Ok (content <$> files w !! path), log (ReadFile path) w).

Definition writeFile (path contents : string) : M unit :=
  fun w =>
    (Ok tt,
     log (WriteFile path)
       (set_files (<[path := {| content := contents; mtime := clock w |}]>
                     (files w)) w)).

(** 0 stands for a file that is not there. *)
Definition getFileMtime (path : string) : M Z :=
  fun w =>
    (Ok (match files w !! path with Some f => mtime f | None => 0%Z end),
     log (Stat path) w).

Definition fetchRemote (url : string) : M (option string) :=
  fun w => (Ok (remote w), log (FetchRemote url) w).

Definition getCacheDir : M string := fun w => (Ok (cacheDir w), w).
Definition getWorkflowDir : M string := fun w => (Ok (workflowDir w), w).

(** What [JSON.parse] returns for the documents of this tool: [null], or
    a dataset of the persisted shape.  JSON text of any other shape is
    outside the embedding. *)
Definition value : Type := option dataset.

Definition null : value := None.

Section Resolver.
(** [JSON.parse]: [None] when it throws a SyntaxError. *)
Variable parse : string -> option value.

Definition JSON_parse (text : string) : M value :=
  match parse text with
  | Some v => ret v
  | None => throw
  end.

(** Each step of [getPriceData] answers [Some v] when it executes
    [return v], and [None] when control falls out of it. *)

Definition freshCache (cachePath : string) : M (option value) :=
  now <- Date_now ;;
  mtime <- getFileMtime cachePath ;;
  if negb (mtime =? 0)%Z && (now - mtime <? Config.cacheTTL)%Z then
    cached <- readFile cachePath ;;
    match nonempty cached with
    | Some cached =>
        try_catch (v <- JSON_parse cached ;; ret (Some v)) (ret None)
    | None => ret None
    end
  else ret None.

Definition bundledLocal (cachePath : string) : M (option value) :=
  workflowDir <- getWorkflowDir ;;
  let localPath := (workflowDir ++ "/data/prices.json")%string in
  local <- readFile localPath ;;
  match nonempty local with
  | Some local =>
      try_catch
        (localData <- JSON_parse local ;;
         writeFile cachePath local ;;;
         ret (Some localData))
        (ret None)
  | None => ret None
  end.

Definition remoteFetch (cachePath : string) : M (option value) :=
  remote <- fetchRemote Config.dataURL ;;
  match nonempty remote with
  | Some remote =>
      try_catch
        (data <- JSON_parse remote ;;
         writeFile cachePath remote ;;;
         ret (Some data))
        (ret None)
  | None => ret None
  end.

Definition staleCache (cachePath : string) : M (option value) :=
  expiredCache <- readFile cachePath ;;
  match nonempty expiredCache with
  | Some expiredCache =>
      try_catch (v <- JSON_parse expiredCache ;; ret (Some v)) (ret None)
  | None => ret None
  end.

(** Runs [step]; when it returned a value that is the answer,
    otherwise control goes on to [rest]. *)
Definition or_continue (step : M (option value)) (rest : M value)
  : M value :=
  r <- step ;;
  match r with
  | Some v => ret v
  | None => rest
  end.

Definition stepsAfterFresh (cachePath : string) : M value :=
  or_continue (bundledLocal cachePath)
    (or_continue (remoteFetch cachePath)
       (or_continue (staleCache cachePath)
          (ret null))).

Definition getPriceData : M value :=
  cacheDir <- getCacheDir ;;
  let cachePath := (cacheDir ++ "/prices.json")%string in
  ensureDir cacheDir ;;;
  or_continue (freshCache cachePath) (stepsAfterFresh cachePath).

End Resolver.

(** *** getFlag

    The flag of a region, as the code points of the string: one
    [String.fromCodePoint(c.charCodeAt(0) + 127397)] for every code unit
    of the upper-cased ISO code.  Each of them is above the basic plane,
    so joining them forms no new character. *)
Definition getFlag (iso : string) : list Z :=
  List.map (fun c => (Z.of_nat (Str.code c) + 127397)%Z)
    (list_ascii_of_string (Str.toUpperCase iso)).

(** *** Filtering, ranking and the entry point *)

Definition filterRegions (regions : list region) (query : option string)
  : list region :=
  match nonempty query with
  | None => regions
  | Some query =>
      let query := Str.toUpperCase query in
      List.filter
        (fun r =>
           Str.includes query (Str.toUpperCase (CountryISO r)) ||
           Str.includes query (Str.toUpperCase (Country r)))
        regions
  end.

(** The comparator of [sortByPrice]. *)
Definition comparePlan (planName : string) (a b : region) : number :=
  let planA := find_plan planName (Plans a) in
  let planB := find_plan planName (Plans b) in
  let priceA := match planA with Some p => PriceInCNY p | None => Infinity end in
  let priceB := match planB with Some p => PriceInCNY p | None => Infinity end in
  sub priceA priceB.

Definition sortByPrice (regions : list region) (planName : string)
  : list region :=
  sort (comparePlan planName) regions.

(** The rank shown in the subtitle: a position, or the dash. *)
Inductive rank : Type :=
| Dash
| Position (n : nat).

(** An Alfred item, by the data it renders: the display strings (flag,
    title, subtitle, clipboard text) are formatted from these fields. *)
Record item : Type :=
  { uid : string;
    item_region : region;
    item_plan : plan;
    item_planName : string;
    item_rank : rank }.

Definition createItem (region : region) (plan : plan) (planName : string)
    (rank : rank) : item :=
  {| uid := (CountryISO region ++ "-" ++ planName)%string;
     item_region := region;
     item_plan := plan;
     item_planName := planName;
     item_rank := rank |}.

Inductive entry : Type :=
| PlanEntry (i : item)
| UpdatedEntry (lastUpdated : string).

Inductive output : Type :=
| HelpOutput
| ErrorOutput
| NoRegionOutput
| ItemsOutput (items : list entry).

(** [l.indexOf(x) !== -1] *)
Definition in_list (x : string) (l : list string) : bool :=
  existsb (String.eqb x) l.

(** The [forEach] over the tokens: the tier and the region filter seen
    so far, updated by one token. *)
Definition readToken (acc : option string * option string) (part : string)
  : option string * option string :=
  let '(selectedPlan, searchQuery) := acc in
  if in_list part PLAN_TYPES
  then (Some (Str.toUpperCase part), searchQuery)
  else if (2 <=? String.length part)%nat
       then (selectedPlan, Some part)
       else (selectedPlan, searchQuery).

Definition readTokens (parts : list string) : option string * option string :=
  fold_left readToken parts (None, None).

Definition tokens (query : string) : list string :=
  List.filter (fun p => (0 <? String.length p)%nat) (Str.split_spaces query).

Definition defaultPlan (selectedPlan : option string) : string :=
  match nonempty selectedPlan with
  | Some p => p
  | None => "50GB"
  end.

(** [sorted.forEach(function (region, idx) { ... })], from index [idx]. *)
Fixpoint rankedItems (selectedPlan : string) (idx : nat)
    (sorted : list region) : list item :=
  match sorted with
  | [] => []
  | region :: rest =>
      match find_plan selectedPlan (Plans region) with
      | Some plan =>
          createItem region plan selectedPlan (Position (idx + 1))
          :: rankedItems selectedPlan (S idx) rest
      | None => rankedItems selectedPlan (S idx) rest
      end
  end.

Definition allPlans (region : region) : list item :=
  List.map (fun plan => createItem region plan (Name plan) Dash) (Plans region).

(** The items of a query over the regions left by the filter. *)
Definition queryItems (filtered : list region)
    (selectedPlan : string) (searchQuery : option string) : list item :=
  match nonempty searchQuery, filtered with
  | Some _, [region] => allPlans region
  | _, _ => rankedItems selectedPlan 0 (sortByPrice filtered selectedPlan)
  end.

Section Run.
Variable parse : string -> option value.

Definition run (argv : list string) : M output :=
  let query := Str.trim (Str.toLowerCase (Str.join_with " " argv)) in
  if String.eqb query "help" || String.eqb query "?" then ret HelpOutput
  else
    let parts := tokens query in
    let '(selectedPlan, searchQuery) := readTokens parts in
    let selectedPlan := defaultPlan selectedPlan in
    data <- getPriceData parse ;;
    match data with
    | None => ret ErrorOutput
    | Some data =>
        if (length (regions data) =? 0)%nat then ret ErrorOutput
        else
          let filtered := filterRegions (regions data) searchQuery in
          if (length filtered =? 0)%nat then ret NoRegionOutput
          else
            let items :=
              List.map PlanEntry (queryItems filtered selectedPlan searchQuery) in
            let items :=
              match nonempty (Some (lastUpdated data)) with
              | Some updated => items ++ [UpdatedEntry updated]
              | None => items
              end in
            ret (ItemsOutput items)
    end.
End Run.

(** ** What the statements below talk about *)

(** *** Ranking *)

(** The region offers the tier. *)
Definition has_plan (planName : string) (r : region) : bool :=
  match find_plan planName (Plans r) with Some _ => true | None => false end.

(** The persisted prices are decimals: finite numbers. *)
Definition finite_prices (r : region) : Prop :=
  Forall (fun p => is_finite (PriceInCNY p) = true) (Plans r).

(** The sort key the ranking rule names: the tier's price, positive
    infinity when the region has no such tier. *)
Definition tier_key (planName : string) (r : region) : number :=
  match find_plan planName (Plans r) with
  | Some p => PriceInCNY p
  | None => Infinity
  end.

(** A price, or positive infinity. *)
Definition rankable (n : number) : bool :=
  match n with
  | Fin _ | PosInf => true
  | NaN | NegInf => false
  end.

(** [a <= b] on rankable keys. *)
Definition key_le (a b : number) : Prop := ltb b a = false.

(** Neither key is below the other. *)
Definition same_key (a b : number) : bool := negb (ltb a b) && negb (ltb b a).

(** The ranking rule: ascending by key, equal keys in input order. *)
Definition ranked_by {A : Type} (key : A -> number) (input output : list A)
  : Prop :=
  Permutation output input
  /\ StronglySorted (fun a b => key_le (key a) (key b)) output
  /\ forall k : number,
       rankable k = true ->
       List.filter (fun x => same_key k (key x)) output
       = List.filter (fun x => same_key k (key x)) input.

(** The 50GB price of the region, when it has one, is not falsy. *)
Definition nonzero_benchmark (r : region) : Prop :=
  match find_plan "50GB" (Plans r) with
  | Some p => truthy (PriceInCNY p) = true
  | None => True
  end.

(** What a run persisted or previewed, as the ranking shows it: each
    region with its 50GB price. *)
Definition ranking_of (o : outcome) : list (string * option number) :=
  match o with
  | Written d | DryRun d =>
      List.map (fun r => (CountryISO r, PriceInCNY <$> find_plan "50GB" (Plans r)))
        (regions d)
  | Exit _ => []
  end.

(** *** Tokens *)

(** A word of the tier vocabulary. *)
Definition is_tier (part : string) : bool := in_list part PLAN_TYPES.

(** A candidate for the region filter: no tier word, two characters or
    more. *)
Definition is_region_token (part : string) : bool :=
  negb (is_tier part) && (2 <=? String.length part)%nat.

(** *** Price strings *)

(** The regrouping as the specification words it: with more than one
    dot-separated segment, all segments but the last are glued into the
    integer part and the last is the fraction. *)
Definition regroup (dotted : string) : string :=
  let segments := Str.split "." dotted in
  if (1 <? length segments)%nat
  then Str.join (removelast segments) ++ "." ++ List.last segments EmptyString
  else dotted.

(** Every character of the string passes [f]. *)
Fixpoint all_chars (f : ascii -> bool) (s : string) : bool :=
  match s with
  | EmptyString => true
  | String c s' => f c && all_chars f s'
  end.

Definition digit_or_dot (c : ascii) : bool :=
  Str.is_digit c || Ascii.eqb c ".".

(** A price the data model admits: a finite number, not below zero. *)
Definition price_ok (n : number) : bool :=
  match n with
  | Fin q => Qle_bool 0 q
  | _ => false
  end.

(** Every rate of the table is a finite number. *)
Definition finite_rates (rates : gmap string number) : Prop :=
  forall currency n, rates !! currency = Some n -> is_finite n = true.

(** The scraped prices of the region are finite numbers. *)
Definition raw_finite (r : Raw.region) : Prop :=
  Forall (fun p => is_finite (Raw.Price p) = true) (Raw.Plans r).

(** *** Rounding *)

(** Rounding to the nearest integer, a tie going away from zero. *)
Definition round_half_away_from_zero (x : Q) : Z :=
  (Z.sgn (Qnum x) * Qfloor (Qabs x + (1 # 2)))%Z.

(** A price of [cents] hundredths. *)
Definition of_cents (cents : Z) : number := Fin (Qred (inject_Z cents / 100)).

(** *** The resolver *)

(** The paths of the cache file and of the bundled copy. *)
Definition cachePathOf (w : world) : string :=
  (cacheDir w ++ "/prices.json")%string.

Definition localPathOf (w : world) : string :=
  (workflowDir w ++ "/data/prices.json")%string.

(** A text that yields no parsed document: absent, empty, or rejected
    by [JSON.parse]. *)
Definition unparseable (parse : string -> option value) (text : option string)
  : Prop :=
  match nonempty text with
  | Some t => parse t = None
  | None => True
  end.

(** [w'] differs from [w] by its trace at most. *)
Definition same_outside (w w' : world) : Prop :=
  files w' = files w /\ remote w' = remote w /\ clock w' = clock w
  /\ cacheDir w' = cacheDir w /\ workflowDir w' = workflowDir w.

(** *** Decimal numerals *)

(** The number a string of decimal digits denotes. *)
Definition digits_value (digits : string) : Z :=
  fold_left (fun acc c => (10 * acc + Str.digit_val c)%Z)
    (list_ascii_of_string digits) 0%Z.

(** The number with the integer digits [whole] and the fraction digits
    [frac]; without any digit there is no number. *)
Definition decimal (whole frac : string) : number :=
  match (whole ++ frac)%string with
  | EmptyString => NaN
  | digits =>
      Fin (Qred (inject_Z (digits_value digits)
                 / inject_Z (10 ^ Z.of_nat (String.length frac))))
  end.

(** *** The scraper *)

(** A plan name of the scraper: digits and a unit. *)
Definition tier_name (name : string) : Prop :=
  exists size unit,
    name = (size ++ unit)%string
    /\ size <> ""
    /\ all_chars Str.is_digit size = true
    /\ (unit = "GB" \/ unit = "TB").

(** A currency code of the scraper: three word characters. *)
Definition currency_code (currency : string) : Prop :=
  String.length currency = 3%nat /\ all_chars is_word currency = true.

(** A region as the scraper returns it. *)
Definition scraped_ok (r : Raw.region) : Prop :=
  Raw.Plans r <> []
  /\ Forall (fun p => price_ok (Raw.Price p) = true /\ tier_name (Raw.Name p))
       (Raw.Plans r)
  /\ currency_code (Raw.Currency r).

(** *** Redirects *)

(** Each URL of the chain redirects to the next one, the last to
    [target]. *)
Fixpoint redirect_chain (net : string -> response) (chain : list string)
    (target : string) : Prop :=
  match chain with
  | [] => True
  | url :: rest =>
      redirect (net url) = Some (List.hd target rest)
      /\ redirect_chain net rest target
  end.

(** *** The collection run *)

(** A persisted plan and region with [PriceInCNY] forgotten. *)
Definition forget_plan (p : plan) : Raw.plan :=
  {| Raw.Name := Name p; Raw.Price := Price p |}.

Definition forget (r : region) : Raw.region :=
  {| Raw.CountryISO := CountryISO r; Raw.Country := Country r;
     Raw.Currency := Currency r;
     Raw.Plans := List.map forget_plan (Plans r) |}.

(** The dataset of a run that did not exit. *)
Definition persisted (o : outcome) : option dataset :=
  match o with
  | Written d | DryRun d => Some d
  | Exit _ => None
  end.

(** The table holds a rate for the currency that is neither 0 nor NaN. *)
Definition usable_rate (rates : gmap string number) (currency : string) : Prop :=
  exists n, rates !! currency = Some n /\ truthy n = true.

(** A whole number of hundredths. *)
Definition in_hundredths (n : number) : Prop :=
  exists cents : Z, n = of_cents cents.

(** The table lets a price in [currency] be converted: the currency is
    CNY, or the table holds a rate that is neither 0 nor NaN for it and
    for CNY. *)
Definition converts (rates : gmap string number) (currency : string) : bool :=
  String.eqb currency "CNY"
  || (match rates !! currency with Some n => truthy n | None => false end
      && match rates !! "CNY" with Some n => truthy n | None => false end).

(** One warning for every plan of every region whose currency the table
    does not convert, in the order of the regions and of their plans. *)
Definition expected_warnings (rates : gmap string number)
    (source : list Raw.region) : list warning :=
  flat_map
    (fun r =>
       if converts rates (Raw.Currency r) then []
       else List.map (fun _ => RateNotFound (Raw.Currency r)) (Raw.Plans r))
    source.

(** *** The resolver, step by step *)

(** The world at a later time. *)
Definition set_clock (t : Z) (w : world) : world :=
  {| files := files w; remote := remote w; clock := t;
     cacheDir := cacheDir w; workflowDir := workflowDir w;
     trace := trace w |}.

(** The text a condition lets through: the file's content when the file
    is there and not empty. *)
Definition text_at (w : world) (path : string) : option string :=
  nonempty (content <$> files w !! path).

(** The cache file does not pass the freshness test: it is absent,
    stamped 0, or at least one TTL old. *)
Definition cache_expired (w : world) : Prop :=
  match files w !! cachePathOf w with
  | Some f => mtime f = 0%Z \/ (Config.cacheTTL <= clock w - mtime f)%Z
  | None => True
  end.

(** The first step gives no answer: the cache file is expired, or holds
    nothing that parses. *)
Definition cache_miss (parse : string -> option value) (w : world) : Prop :=
  cache_expired w
  \/ unparseable parse (content <$> files w !! cachePathOf w).

(** The text the second or third step answers with: the bundled copy
    when it parses, else what curl printed. *)
Definition served_text (parse : string -> option value) (w : world)
    (text : string) : Prop :=
  text_at w (localPathOf w) = Some text
  \/ (unparseable parse (content <$> files w !! localPathOf w)
      /\ nonempty (remote w) = Some text).

(** The files after the cache file was overwritten with [text]. *)
Definition cache_written (w : world) (text : string) : gmap string file :=
  <[cachePathOf w := {| content := text; mtime := clock w |}]> (files w).

(** The freshness test of the first step. *)
Definition is_fresh (w : world) : bool :=
  let m := match files w !! cachePathOf w with
           | Some f => mtime f
           | None => 0%Z
           end in
  negb (m =? 0)%Z && (clock w - m <? Config.cacheTTL)%Z.

(** A text together with what it parses to. *)
Definition parsed (parse : string -> option value) (text : option string)
  : option (string * value) :=
  match text with
  | Some t => match parse t with Some v => Some (t, v) | None => None end
  | None => None
  end.

(** The world after the events, the first of the list being the latest. *)
Definition logs (es : list event) (w : world) : world :=
  fold_right log w es.

(** *** Queries *)

(** [q] occurs in [s] when case is ignored. *)
Definition occurs_ignoring_case (q s : string) : Prop :=
  exists before after : string,
    Str.toUpperCase s = (before ++ Str.toUpperCase q ++ after)%string.

Definition not_space (c : ascii) : bool := negb (Str.is_space c).

(** The query that [run] reads off its arguments. *)
Definition query_of (argv : list string) : string :=
  Str.trim (Str.toLowerCase (Str.join_with " " argv)).

Definition asks_for_help (argv : list string) : bool :=
  String.eqb (query_of argv) "help" || String.eqb (query_of argv) "?".

(** The price an item shows. *)
Definition item_price (it : item) : number := PriceInCNY (item_plan it).

(** *** Flags *)

(** A letter of the basic Latin alphabet. *)
Definition is_ascii_letter (c : ascii) : bool :=
  let n := Str.code c in
  ((65 <=? n)%nat && (n <=? 90)%nat) || ((97 <=? n)%nat && (n <=? 122)%nat).

(** The place of a letter in the alphabet, from 0. *)
Definition alphabet_index (c : ascii) : Z :=
  (Z.of_nat (Str.code c) mod 32 - 1)%Z.

(** The code point of the regional indicator symbol of the letter at
    place [n]: U+1F1E6 is the one of A. *)
Definition regional_indicator (n : Z) : Z := (127462 + n)%Z.

(** ** Sample inputs *)

Definition rates_USD_CNY : gmap string number :=
  <["USD" := lit "1"]> (<["CNY" := lit "7.2"]> ∅).

Definition rates_EUR : gmap string number :=
  <["EUR" := lit "0.92"]> rates_USD_CNY.

Definition rates_without_CNY : gmap string number :=
  <["USD" := lit "1"]> (<["EUR" := lit "0.92"]> ∅).

Definition env_without_CNY : collect_env :=
  {| env_rates := Some rates_without_CNY;
     env_scraped := Some [R "DE" "Germany" "EUR" [P "50GB" "0.99"]];
     env_now := "2024-01-01T00:00:00.000Z";
     env_dry_run := false |}.

Definition env_unknown_currency : collect_env :=
  {| env_rates := Some rates_USD_CNY;
     env_scraped := Some [R "DE" "Germany" "EUR" [P "50GB" "0.99"]];
     env_now := "2024-01-01T00:00:00.000Z";
     env_dry_run := false |}.

Definition env_zero_price : collect_env :=
  {| env_rates := Some rates_USD_CNY;
     env_scraped :=
       Some [R "XX" "Nowhere" "CNY" [P "200GB" "21"];
             R "FR" "Freeland" "CNY" [P "50GB" "0"];
             R "CN" "China" "CNY" [P "50GB" "6"]];
     env_now := "2024-01-01T00:00:00.000Z";
     env_dry_run := false |}.

Definition priced (iso country : string) (tier : string) (cny : string)
  : region :=
  {| CountryISO := iso; Country := country; Currency := "CNY";
     Plans := [{| Name := tier; Price := lit cny; PriceInCNY := lit cny |}] |}.

Definition zero_priced : list region :=
  [priced "FR" "Freeland" "50GB" "0"; priced "CN" "China" "50GB" "6"].

Definition some_regions : list region :=
  [priced "XX" "Nowhere" "200GB" "21";
   priced "JP" "Japan" "50GB" "7.2";
   priced "CN" "China" "50GB" "6"].

Definition sample_document (stamp : string) : dataset :=
  {| lastUpdated := stamp;
     source := "Apple Support + ExchangeRate-API";
     regions := [priced "CN" "China" "50GB" "6"] |}.

(** A stand-in for [JSON.parse] that knows three texts. *)
Definition sample_parse (text : string) : option value :=
  if String.eqb text "null" then Some null
  else if String.eqb text "{cached dataset}"
       then Some (Some (sample_document "cached"))
  else if String.eqb text "{bundled dataset}"
       then Some (Some (sample_document "bundled"))
  else None.

Definition sample_world (fs : gmap string file) (curl : option string)
    (now : Z) : world :=
  {| files := fs; remote := curl; clock := now;
     cacheDir := "/cache"; workflowDir := "/workflow"; trace := [] |}.

Definition world_fresh : world :=
  sample_world
    {[ "/cache/prices.json" :=
         {| content := "{cached dataset}"; mtime := 1700000000000 |} ]}
    None 1700000060000.

Definition world_epoch : world :=
  sample_world
    (<[ "/cache/prices.json" :=
          {| content := "{cached dataset}"; mtime := 0 |} ]>
       {[ "/workflow/data/prices.json" :=
            {| content := "{bundled dataset}"; mtime := 500 |} ]})
    None 1000.

Definition world_broken : world :=
  sample_world
    {[ "/cache/prices.json" :=
         {| content := "<html>"; mtime := 1600000000000 |} ]}
    (Some "curl: (6) Could not resolve host") 1700000000000.

(** A run whose scrape threw. *)
Definition env_scrape_failed : collect_env :=
  {| env_rates := Some rates_USD_CNY;
     env_scraped := None;
     env_now := "2024-01-01T00:00:00.000Z";
     env_dry_run := true |}.

(** A table whose EUR rate is 0. *)
Definition rates_zero_EUR : gmap string number :=
  <["EUR" := lit "0"]> rates_USD_CNY.

(** A page with a heading that is no region, a region with two plans
    and a line that is none, and a region without any plan. *)
Definition sample_page : list heading :=
  [ {| heading_text := "iCloud+ plans"; list_items := [] |};
    {| heading_text := " Germany (EUR) ";
       list_items := ["50 GB: 0,99 EUR"; "2tb 9,99 EUR"; "Family sharing"] |};
    {| heading_text := "Japan (JPY)"; list_items := ["soon"] |} ].

(** An expired cache file and nothing else. *)
Definition world_stale : world :=
  sample_world
    {[ "/cache/prices.json" :=
         {| content := "{cached dataset}"; mtime := 1600000000000 |} ]}
    None 1700000000000.

(** No file at all; curl prints a dataset. *)
Definition world_remote : world :=
  sample_world ∅ (Some "{bundled dataset}") 1700000000000.

(** * Properties *)

(** ** Order and rounding of numbers *)

(** On prices and positive infinity, [a - b] is below zero exactly when
    [a] is below [b]. *)
Lemma ltb_sub_zero (a b : number) :
  rankable a = true -> rankable b = true ->
  ltb (sub a b) (Fin 0) = ltb a b.
Proof.
  destruct a as [| | |x], b as [| | |y]; try discriminate; try reflexivity.
  intros _ _. unfold sub, ltb.
  rewrite (Qcompare_comp _ _ (Qred_correct (x - y)) 0%Q 0%Q (Qeq_refl 0%Q)).
  destruct (Qcompare_spec x y) as [H|H|H];
    destruct (Qcompare_spec (x - y) 0%Q) as [H'|H'|H']; try reflexivity; lra.
Qed.

Lemma ltb_irrefl (a : number) : ltb a a = false.
Proof.
  destruct a as [| | |x]; try reflexivity. unfold ltb.
  destruct (Qcompare_spec x x); try reflexivity; lra.
Qed.

Lemma ltb_asym (a b : number) : ltb a b = true -> ltb b a = false.
Proof.
  destruct a as [| | |x], b as [| | |y]; try discriminate; try reflexivity.
  unfold ltb.
  destruct (Qcompare_spec x y); destruct (Qcompare_spec y x);
    try discriminate; try reflexivity; lra.
Qed.

Lemma ltb_le_trans (a b c : number) :
  rankable a = true -> rankable b = true -> rankable c = true ->
  ltb a b = true -> ltb c b = false -> ltb c a = false.
Proof.
  destruct a as [| | |x], b as [| | |y], c as [| | |z];
    try discriminate; try reflexivity.
  unfold ltb. intros _ _ _.
  destruct (Qcompare_spec x y); destruct (Qcompare_spec z y);
    destruct (Qcompare_spec z x); try discriminate; try reflexivity; lra.
Qed.

(** Above a key strictly larger than [k] no key equals [k]. *)
Lemma same_key_below (k a b c : number) :
  rankable k = true -> rankable a = true -> rankable b = true ->
  rankable c = true ->
  same_key k a = true -> ltb a b = true -> ltb c b = false ->
  same_key k c = false.
Proof.
  unfold same_key.
  destruct k as [| | |u], a as [| | |x], b as [| | |y], c as [| | |z];
    try discriminate; try reflexivity; intros _ _ _ _; unfold ltb;
    repeat match goal with
      | |- context [Qcompare ?p ?q] => destruct (Qcompare_spec p q)
      end; simpl; try discriminate; try reflexivity; intros; lra.
Qed.

(** On a value that is not negative, ties away from zero are ties
    upwards, which is what [Math.round] does. *)
Lemma round_half_away_nonneg (x : Q) :
  (0 <= x)%Q -> round_half_away_from_zero x = Qfloor (x + (1 # 2)).
Proof.
  intros Hx. unfold round_half_away_from_zero.
  rewrite (Qfloor_comp _ _ (Qplus_comp _ _ (Qabs_pos x Hx) _ _ (Qeq_refl _))).
  destruct x as [n d]. unfold Qle in Hx. simpl in Hx. simpl Qnum.
  destruct n as [|n|n]; [| |lia].
  - cbn [Z.sgn Z.mul]. unfold Qfloor, Qplus. cbn [Qnum Qden].
    symmetry. apply Z.div_small. lia.
  - cbn [Z.sgn]. apply Z.mul_1_l.
Qed.

Lemma truthy_positive (q : Q) : (0 < q)%Q -> truthy (Fin q) = true.
Proof.
  destruct q as [n d]. unfold Qlt, truthy, is_zero. simpl. intros H.
  apply negb_true_iff, Z.eqb_neq. lia.
Qed.

Lemma is_zero_positive (q : Q) : (0 < q)%Q -> is_zero q = false.
Proof.
  destruct q as [n d]. unfold Qlt, is_zero. simpl. intros H.
  apply Z.eqb_neq. lia.
Qed.

(** [Math.round(x * 100) / 100] on a finite number. *)
Lemma round2_finite (x : Q) :
  round2 (Fin x)
  = Fin (Qred (inject_Z (Qfloor (x * 100 + (1 # 2))) / 100)).
Proof.
  unfold round2, mul, of_Z, Math_round, div.
  change (is_zero (inject_Z 100)) with false. cbv iota.
  f_equal. apply Qred_complete.
  apply Qdiv_comp; [|reflexivity].
  rewrite (Qfloor_comp (Qred (x * inject_Z 100) + (1 # 2)) (x * 100 + (1 # 2))).
  - reflexivity.
  - rewrite Qred_correct. reflexivity.
Qed.

Lemma Qfloor_half (z : Z) : Qfloor (inject_Z z + (1 # 2)) = z.
Proof.
  unfold Qfloor, Qplus, inject_Z. cbn [Qnum Qden].
  symmetry. apply (Z.div_unique _ _ _ 1); lia.
Qed.

Lemma round2_of_cents (cents : Z) : round2 (of_cents cents) = of_cents cents.
Proof.
  unfold of_cents. rewrite round2_finite. do 4 f_equal.
  rewrite <- (Qfloor_half cents) at 2. apply Qfloor_comp.
  rewrite Qred_correct. field.
Qed.

(** ** Array.prototype.sort *)

Section SortFacts.
Context {A : Type} (comparefn : A -> A -> number).

(** The sort permutes. *)
Lemma insert_sorted_perm (x : A) (l : list A) :
  Permutation (insert_sorted comparefn x l) (x :: l).
Proof.
  induction l as [|y l IH]; simpl.
  - reflexivity.
  - destruct (goes_before comparefn x y).
    + reflexivity.
    + rewrite IH. apply perm_swap.
Qed.

Lemma sort_from_perm (l acc : list A) :
  Permutation (sort_from comparefn acc l) (acc ++ l).
Proof.
  revert acc. induction l as [|x l IH]; intros acc; simpl.
  - rewrite app_nil_r. reflexivity.
  - rewrite IH, insert_sorted_perm.
    simpl. apply Permutation_middle.
Qed.

Lemma sort_perm (l : list A) : Permutation (sort comparefn l) l.
Proof. apply (sort_from_perm l []). Qed.

(** Elements that never go in front of anything, and that everything
    else goes in front of, end up behind, in their original order. *)
Section Late.
Variable late : A -> bool.
Variable good : A -> Prop.
Hypothesis late_stays :
  forall x y, late x = true -> goes_before comparefn x y = false.
Hypothesis early_passes :
  forall x y, good x -> late x = false -> late y = true ->
              goes_before comparefn x y = true.

Lemma insert_late (x : A) (l : list A) :
  late x = true -> insert_sorted comparefn x l = l ++ [x].
Proof.
  intros Hx. induction l as [|y l IH]; simpl.
  - reflexivity.
  - rewrite (late_stays x y Hx), IH. reflexivity.
Qed.

Lemma insert_early (x : A) (l1 l2 : list A) :
  good x ->
  late x = false ->
  Forall (fun y => late y = true) l2 ->
  exists l1', insert_sorted comparefn x (l1 ++ l2) = l1' ++ l2
              /\ Permutation l1' (x :: l1).
Proof.
  intros Hg Hx H2. induction l1 as [|y l1 IH]; simpl.
  - exists [x]. split; [|reflexivity].
    destruct l2 as [|z l2]; simpl; [reflexivity|].
    inversion H2; subst.
    rewrite early_passes by assumption. reflexivity.
  - destruct (goes_before comparefn x y).
    + exists (x :: y :: l1). split; reflexivity.
    + destruct IH as (l1' & -> & HP).
      exists (y :: l1'). split; [reflexivity|].
      rewrite HP. apply perm_swap.
Qed.

Lemma sort_from_late_last (l acc1 acc2 : list A) :
  Forall good l ->
  Forall (fun y => late y = false) acc1 ->
  Forall (fun y => late y = true) acc2 ->
  exists l1,
    sort_from comparefn (acc1 ++ acc2) l
    = l1 ++ acc2 ++ List.filter late l
    /\ Permutation l1 (acc1 ++ List.filter (fun y => negb (late y)) l).
Proof.
  intros Hgood. revert acc1 acc2.
  induction Hgood as [|x l Hg Hgood IH]; intros acc1 acc2 H1 H2; simpl.
  - exists acc1. rewrite !app_nil_r. split; reflexivity.
  - destruct (late x) eqn:Hx; simpl.
    + rewrite insert_late by assumption.
      rewrite <- app_assoc.
      destruct (IH acc1 (acc2 ++ [x]) H1) as (l1 & E & HP).
      { apply Forall_app. split; [assumption|]. repeat constructor. assumption. }
      exists l1. rewrite E.
      rewrite <- !app_assoc. split; [reflexivity|assumption].
    + destruct (insert_early x acc1 acc2 Hg Hx H2) as (l1' & E' & HP').
      rewrite E'.
      destruct (IH l1' acc2) as (l1 & E & HP); [|assumption|].
      { eapply Permutation_Forall; [symmetry; exact HP'|].
        constructor; assumption. }
      exists l1. rewrite E. split; [reflexivity|].
      rewrite HP, HP'. simpl. apply Permutation_middle.
Qed.

Lemma sort_late_last (l : list A) :
  Forall good l ->
  exists l1,
    sort comparefn l = l1 ++ List.filter late l
    /\ Permutation l1 (List.filter (fun y => negb (late y)) l).
Proof.
  intros Hgood.
  destruct (sort_from_late_last l [] [] Hgood) as (l1 & E & HP);
    [constructor | constructor |].
  exists l1. split; assumption.
Qed.
End Late.
End SortFacts.

Section KeyedSort.
Context {A : Type} (key : A -> number) (comparefn : A -> A -> number).

Hypothesis comparefn_key :
  forall x y, rankable (key x) = true -> rankable (key y) = true ->
              comparefn x y = sub (key x) (key y).

(** A comparator that subtracts keys: on rankable keys the sorted array
    is ascending, and equal keys keep their input order. *)
Lemma goes_before_key (x y : A) :
  rankable (key x) = true -> rankable (key y) = true ->
  goes_before comparefn x y = ltb (key x) (key y).
Proof.
  intros Hx Hy. unfold goes_before. rewrite comparefn_key by assumption.
  apply ltb_sub_zero; assumption.
Qed.

Lemma insert_sorted_Forall (P : A -> Prop) (x : A) (l : list A) :
  P x -> Forall P l -> Forall P (insert_sorted comparefn x l).
Proof.
  intros Hx Hl. eapply Permutation_Forall.
  - symmetry. apply insert_sorted_perm.
  - constructor; assumption.
Qed.

Lemma insert_sorted_keeps_order (x : A) (l : list A) :
  rankable (key x) = true ->
  Forall (fun y => rankable (key y) = true) l ->
  StronglySorted (fun a b => key_le (key a) (key b)) l ->
  StronglySorted (fun a b => key_le (key a) (key b))
    (insert_sorted comparefn x l).
Proof.
  intros Hx Hl Hs. induction Hs as [|y rest Hs IH Hy]; simpl.
  - repeat constructor.
  - inversion Hl as [|? ? Ky Krest]; subst.
    rewrite goes_before_key by assumption.
    destruct (ltb (key x) (key y)) eqn:Hlt.
    + constructor; [constructor; assumption|].
      constructor; [apply ltb_asym; assumption|].
      rewrite List.Forall_forall in Hy, Krest |- *. intros z Hz.
      apply (ltb_le_trans (key x) (key y) (key z)); auto.
      apply Hy. assumption.
    + constructor; [apply IH; assumption|].
      apply insert_sorted_Forall; assumption.
Qed.

Lemma insert_sorted_filter (k : number) (x : A) (l : list A) :
  rankable k = true ->
  rankable (key x) = true ->
  Forall (fun y => rankable (key y) = true) l ->
  StronglySorted (fun a b => key_le (key a) (key b)) l ->
  List.filter (fun z => same_key k (key z)) (insert_sorted comparefn x l)
  = List.filter (fun z => same_key k (key z)) l
    ++ List.filter (fun z => same_key k (key z)) [x].
Proof.
  intros Hk Hx Hl Hs. induction Hs as [|y rest Hs IH Hy].
  - reflexivity.
  - inversion Hl as [|? ? Ky Krest]; subst.
    cbn [insert_sorted]. rewrite goes_before_key by assumption.
    destruct (ltb (key x) (key y)) eqn:Hlt.
    + change (x :: y :: rest) with ([x] ++ y :: rest).
      rewrite List.filter_app.
      destruct (same_key k (key x)) eqn:Hsame.
      * assert (Hnone : List.filter (fun z => same_key k (key z)) (y :: rest) = []).
        { rewrite (List.filter_ext_in _ (fun _ => false)); [apply List.filter_false|].
          intros z Hz.
          apply (same_key_below k (key x) (key y) (key z)); auto.
          - rewrite List.Forall_forall in Hl. apply Hl. assumption.
          - destruct Hz as [<- | Hz]; [apply ltb_irrefl|].
            rewrite List.Forall_forall in Hy. apply Hy. assumption. }
        rewrite Hnone. simpl. rewrite Hsame. reflexivity.
      * simpl. rewrite Hsame. rewrite app_nil_r. reflexivity.
    + cbn [List.filter]. rewrite IH by assumption.
      destruct (same_key k (key y)); reflexivity.
Qed.

Lemma sort_from_keeps_order (l acc : list A) :
  Forall (fun y => rankable (key y) = true) acc ->
  Forall (fun y => rankable (key y) = true) l ->
  StronglySorted (fun a b => key_le (key a) (key b)) acc ->
  StronglySorted (fun a b => key_le (key a) (key b))
    (sort_from comparefn acc l).
Proof.
  intros Hacc Hl. revert acc Hacc.
  induction Hl as [|x l Hx Hl IH]; intros acc Hacc Hs; simpl; [assumption|].
  apply IH.
  - apply insert_sorted_Forall; assumption.
  - apply insert_sorted_keeps_order; assumption.
Qed.

Lemma sort_from_filter (k : number) (l acc : list A) :
  rankable k = true ->
  Forall (fun y => rankable (key y) = true) acc ->
  Forall (fun y => rankable (key y) = true) l ->
  StronglySorted (fun a b => key_le (key a) (key b)) acc ->
  List.filter (fun z => same_key k (key z)) (sort_from comparefn acc l)
  = List.filter (fun z => same_key k (key z)) acc
    ++ List.filter (fun z => same_key k (key z)) l.
Proof.
  intros Hk Hacc Hl. revert acc Hacc.
  induction Hl as [|x l Hx Hl IH]; intros acc Hacc Hs.
  - simpl. rewrite app_nil_r. reflexivity.
  - cbn [sort_from]. rewrite IH.
    + rewrite insert_sorted_filter by assumption.
      rewrite <- app_assoc. rewrite <- List.filter_app. reflexivity.
    + apply insert_sorted_Forall; assumption.
    + apply insert_sorted_keeps_order; assumption.
Qed.

(** On rankable keys the sort realises the ranking rule. *)
Lemma sort_ranked_by (l : list A) :
  Forall (fun y => rankable (key y) = true) l ->
  ranked_by key l (sort comparefn l).
Proof.
  intros Hl. split; [apply sort_perm|]. split.
  - apply sort_from_keeps_order; [constructor|assumption|constructor].
  - intros k Hk. unfold sort.
    rewrite sort_from_filter; [reflexivity|assumption|constructor|assumption|constructor].
Qed.
End KeyedSort.

Section SortExt.
Context {A : Type} (c1 c2 : A -> A -> number) (P : A -> Prop).
Hypothesis agree : forall x y, P x -> P y -> c1 x y = c2 x y.

(** Comparators that agree on the elements sort alike. *)
Lemma insert_sorted_ext (x : A) (l : list A) :
  P x -> Forall P l -> insert_sorted c1 x l = insert_sorted c2 x l.
Proof.
  intros Hx Hl. induction Hl as [|y l Hy Hl IH]; simpl; [reflexivity|].
  unfold goes_before. rewrite agree, IH by assumption. reflexivity.
Qed.

Lemma sort_from_ext (l acc : list A) :
  Forall P acc -> Forall P l -> sort_from c1 acc l = sort_from c2 acc l.
Proof.
  intros Hacc Hl. revert acc Hacc.
  induction Hl as [|x l Hx Hl IH]; intros acc Hacc; simpl; [reflexivity|].
  rewrite insert_sorted_ext by assumption. apply IH.
  eapply Permutation_Forall; [symmetry; apply insert_sorted_perm|].
  constructor; assumption.
Qed.

Lemma sort_ext (l : list A) : Forall P l -> sort c1 l = sort c2 l.
Proof. intros Hl. apply sort_from_ext; [constructor|assumption]. Qed.
End SortExt.

(** The ranking rule leaves no choice: two arrays that both realise it
    for the same input are equal, so every stable sort agrees with
    [sort] wherever the keys are rankable. *)
Section RankedUnique.
Context {A : Type} (key : A -> number).

Lemma head_minimal (x : A) (l : list A) (y : A) :
  StronglySorted (fun a b => key_le (key a) (key b)) (x :: l) ->
  In y (x :: l) -> ltb (key y) (key x) = false.
Proof.
  intros Hs [<- | Hy]; [apply ltb_irrefl|].
  inversion Hs as [|? ? _ Hall]; subst.
  rewrite List.Forall_forall in Hall. apply Hall. assumption.
Qed.

Lemma ranked_same_input (o1 o2 : list A) :
  Forall (fun y => rankable (key y) = true) o1 ->
  Permutation o1 o2 ->
  StronglySorted (fun a b => key_le (key a) (key b)) o1 ->
  StronglySorted (fun a b => key_le (key a) (key b)) o2 ->
  (forall k, rankable k = true ->
             List.filter (fun z => same_key k (key z)) o1
             = List.filter (fun z => same_key k (key z)) o2) ->
  o1 = o2.
Proof.
  intros Hr. revert o2. induction Hr as [|x o1 Hx Hr IH]; intros o2 HP H1 H2 Hf.
  - apply Permutation_nil in HP. congruence.
  - destruct o2 as [|y o2]; [apply Permutation_sym, Permutation_nil in HP; discriminate|].
    assert (Hyx : ltb (key y) (key x) = false).
    { apply (head_minimal x o1 y H1).
      apply (Permutation_in _ (Permutation_sym HP)). left. reflexivity. }
    assert (Hxy : ltb (key x) (key y) = false).
    { apply (head_minimal y o2 x H2).
      apply (Permutation_in _ HP). left. reflexivity. }
    assert (Hxx : same_key (key x) (key x) = true)
      by (unfold same_key; rewrite ltb_irrefl; reflexivity).
    assert (Hsame : same_key (key x) (key y) = true)
      by (unfold same_key; rewrite Hxy, Hyx; reflexivity).
    pose proof (Hf (key x) Hx) as Hk. cbn [List.filter] in Hk.
    rewrite Hxx, Hsame in Hk. injection Hk as <- _.
    f_equal. apply IH.
    + apply Permutation_cons_inv with (a := x). assumption.
    + inversion H1; assumption.
    + inversion H2; assumption.
    + intros k Hk. specialize (Hf k Hk). cbn [List.filter] in Hf.
      destruct (same_key k (key x)); [injection Hf as Hf|]; assumption.
Qed.

Lemma ranked_by_unique (input o1 o2 : list A) :
  Forall (fun y => rankable (key y) = true) input ->
  ranked_by key input o1 -> ranked_by key input o2 -> o1 = o2.
Proof.
  intros Hr (P1 & S1 & F1) (P2 & S2 & F2).
  apply ranked_same_input; try assumption.
  - eapply Permutation_Forall; [symmetry; exact P1|assumption].
  - rewrite P1, P2. reflexivity.
  - intros k Hk. rewrite F1, F2 by assumption. reflexivity.
Qed.
End RankedUnique.

(** ** parsePrice *)

(** [split] never answers the empty array. *)
Lemma split_nonempty (sep : ascii) (s : string) : Str.split sep s <> [].
Proof.
  destruct s as [|c s]; simpl; [discriminate|].
  destruct (Ascii.eqb c sep); [discriminate|].
  destruct (Str.split sep s); discriminate.
Qed.

Lemma split_one (sep : ascii) (s b : string) :
  Str.split sep s = [b] -> s = b.
Proof.
  revert b. induction s as [|c s IH]; intros b; simpl.
  - congruence.
  - destruct (Ascii.eqb c sep).
    + intros H. injection H as _ H. destruct (split_nonempty _ _ H).
    + destruct (Str.split sep s) as [|p ps] eqn:E;
        [destruct (split_nonempty _ _ E)|].
      intros H. injection H as <- ->. f_equal. apply IH. reflexivity.
Qed.

Lemma split_two (sep : ascii) (s a b : string) :
  Str.split sep s = [a; b] -> s = (a ++ String sep b)%string.
Proof.
  revert a. induction s as [|c s IH]; intros a; simpl.
  - discriminate.
  - destruct (Ascii.eqb c sep) eqn:Hc.
    + intros H. injection H as <- H. apply Ascii.eqb_eq in Hc. subst c.
      change (String sep s = String sep b).
      f_equal. apply split_one with (sep := sep). assumption.
    + destruct (Str.split sep s) as [|p ps] eqn:E; [discriminate|].
      intros H. injection H as <- ->.
      change (String c s = String c (p ++ String sep b)%string).
      f_equal. apply IH. reflexivity.
Qed.

Lemma append_empty_r (s : string) : (s ++ "")%string = s.
Proof.
  induction s as [|c s IH]; [reflexivity|].
  change (String c (s ++ "")%string = String c s). congruence.
Qed.

(** With exactly two parts, gluing gives back the text that was split. *)
Lemma regroup_two_parts (dotted : string) :
  length (Str.split "." dotted) = 2%nat -> regroup dotted = dotted.
Proof.
  unfold regroup. intros H. rewrite H. simpl.
  destruct (Str.split "." dotted) as [|a [|b [|? ?]]] eqn:E; try discriminate.
  simpl. rewrite append_empty_r. symmetry. apply split_two. assumption.
Qed.

(** C5.  For every input string, [parsePrice] keeps only the digits,
    commas and dots, turns the commas into dots and, when what is left
    has more than one dot-separated segment, reads all segments but the
    last as the integer part and the last as the fraction.  The code
    regroups only from three segments on; with exactly two, regrouping
    gives back the same text.  In particular "$0.99" is 0.99,
    "1.234,56" is 1234.56, and the yen sign (code unit 165) followed by
    "198" is 198. *)
Theorem parsePrice_regroups :
  (forall priceStr : string,
      parsePrice priceStr
      = Str.parseFloat
          (regroup (Str.map comma_to_dot (Str.filter keep_price_char priceStr))))
  /\ parsePrice "$0.99" = lit "0.99"
  /\ parsePrice "1.234,56" = lit "1234.56"
  /\ parsePrice (String "165"%char "198") = lit "198".
Proof.
  split; [|repeat split; reflexivity].
  intros priceStr. unfold parsePrice. fold (cleaned priceStr).
  destruct (length (Str.split "." (cleaned priceStr))) as [|[|[|n]]] eqn:E.
  - apply length_zero_iff_nil in E. destruct (split_nonempty _ _ E).
  - unfold regroup. rewrite E. reflexivity.
  - rewrite regroup_two_parts by assumption. reflexivity.
  - unfold regroup. rewrite E. reflexivity.
Qed.

(** *** The sign of a parsed price *)

Lemma all_chars_app (f : ascii -> bool) (s t : string) :
  all_chars f (s ++ t)%string = all_chars f s && all_chars f t.
Proof.
  induction s as [|c s IH]; [reflexivity|].
  change (all_chars f (String c (s ++ t)%string) = f c && all_chars f s && all_chars f t).
  cbn [all_chars]. rewrite IH. apply andb_assoc.
Qed.

Lemma cleaned_chars (priceStr : string) :
  all_chars digit_or_dot (cleaned priceStr) = true.
Proof.
  unfold cleaned. induction priceStr as [|c s IH]; [reflexivity|].
  cbn [Str.filter]. destruct (keep_price_char c) eqn:Hc; [|exact IH].
  cbn [Str.map all_chars]. rewrite IH, andb_true_r.
  unfold keep_price_char in Hc. unfold digit_or_dot, comma_to_dot.
  destruct (Ascii.eqb c ",") eqn:Hcomma; [reflexivity|].
  rewrite orb_false_r in Hc. exact Hc.
Qed.

Lemma split_chars (f : ascii -> bool) (sep : ascii) (s : string) :
  all_chars f s = true ->
  Forall (fun p => all_chars f p = true) (Str.split sep s).
Proof.
  induction s as [|c s IH]; cbn [Str.split all_chars].
  - repeat constructor.
  - intros H. apply andb_true_iff in H. destruct H as [Hc Hs].
    specialize (IH Hs). destruct (Ascii.eqb c sep).
    + constructor; [reflexivity|assumption].
    + destruct (Str.split sep s) as [|p ps].
      * repeat constructor. cbn. rewrite Hc. reflexivity.
      * inversion IH; subst. constructor; [|assumption].
        cbn. rewrite Hc. assumption.
Qed.

Lemma join_chars (f : ascii -> bool) (parts : list string) :
  Forall (fun p => all_chars f p = true) parts ->
  all_chars f (Str.join parts) = true.
Proof.
  induction 1 as [|p ps Hp _ IH]; [reflexivity|].
  unfold Str.join. cbn [fold_right]. rewrite all_chars_app.
  fold (Str.join ps). rewrite Hp, IH. reflexivity.
Qed.

Lemma digit_or_dot_plain (c : ascii) :
  digit_or_dot c = true ->
  Str.is_space c = false
  /\ (forall s, Str.read_sign (String c s) = (false, String c s))
  /\ (forall s, Str.starts_with "Infinity" (String c s) = false)
  /\ (forall s, Str.read_exponent (String c s) = 0%Z).
Proof.
  destruct c as [[] [] [] [] [] [] [] []]; try discriminate;
    intros _; repeat split; reflexivity.
Qed.

Lemma read_digits_nonneg (s : string) (acc : Z) (n : nat) :
  (0 <= acc)%Z -> (0 <= fst (fst (Str.read_digits acc n s)))%Z.
Proof.
  revert acc n. induction s as [|c s IH]; intros acc n Hacc; cbn [Str.read_digits].
  - exact Hacc.
  - destruct (Str.is_digit c); [|exact Hacc].
    apply IH. unfold Str.digit_val. lia.
Qed.

Lemma read_digits_rest (f : ascii -> bool) (s : string) (acc : Z) (n : nat) :
  all_chars f s = true ->
  all_chars f (snd (Str.read_digits acc n s)) = true.
Proof.
  revert acc n. induction s as [|c s IH]; intros acc n H; cbn [Str.read_digits].
  - reflexivity.
  - destruct (Str.is_digit c); [|exact H].
    apply IH. cbn [all_chars] in H. apply andb_true_iff in H. tauto.
Qed.

Lemma read_exponent_plain (s : string) :
  all_chars digit_or_dot s = true -> Str.read_exponent s = 0%Z.
Proof.
  destruct s as [|c s]; [reflexivity|].
  cbn [all_chars]. intros H. apply andb_true_iff in H. destruct H as [Hc _].
  apply digit_or_dot_plain. assumption.
Qed.

Lemma pow10_nonneg (e : Z) : (0 <= Str.pow10 e)%Q.
Proof.
  unfold Str.pow10. destruct (0 <=? e)%Z.
  - change 0%Q with (inject_Z 0). rewrite <- Zle_Qle. apply Z.pow_nonneg. lia.
  - apply Qinv_le_0_compat.
    change 0%Q with (inject_Z 0). rewrite <- Zle_Qle. apply Z.pow_nonneg. lia.
Qed.

Lemma parseFloat_plain (s : string) :
  all_chars digit_or_dot s = true ->
  Str.parseFloat s = NaN \/ price_ok (Str.parseFloat s) = true.
Proof.
  intros Hs. unfold Str.parseFloat.
  assert (Hhead : Str.read_sign (Str.skip_spaces s) = (false, s)
                  /\ Str.starts_with "Infinity" s = false).
  { destruct s as [|c s]; [split; reflexivity|].
    cbn [all_chars] in Hs. apply andb_true_iff in Hs. destruct Hs as [Hc _].
    destruct (digit_or_dot_plain c Hc) as (Hsp & Hsign & Hinf & _).
    cbn [Str.skip_spaces]. rewrite Hsp. split; [apply Hsign|apply Hinf]. }
  destruct Hhead as [-> ->].
  pose proof (read_digits_nonneg s 0 0 (Z.le_refl 0)) as Hip.
  pose proof (read_digits_rest digit_or_dot s 0 0 Hs) as Hrest.
  destruct (Str.read_digits 0 0 s) as [[ip ni] s2]. cbn [fst snd] in Hip, Hrest.
  assert (Hfrac :
    let '(m, nf, s3) :=
      match s2 with
      | String "." s2' => Str.read_digits ip 0 s2'
      | _ => (ip, O, s2)
      end in
    (0 <= m)%Z /\ all_chars digit_or_dot s3 = true).
  { destruct s2 as [|c s2']; [split; assumption|].
    destruct (Ascii.eqb_spec c ".") as [->|Hne].
    - pose proof (read_digits_nonneg s2' ip 0 Hip) as Hm.
      cbn [all_chars] in Hrest. apply andb_true_iff in Hrest.
      pose proof (read_digits_rest digit_or_dot s2' ip 0 (proj2 Hrest)) as Hr.
      destruct (Str.read_digits ip 0 s2') as [[m nf] s3]. split; assumption.
    - assert (E : match String c s2' with
                  | String "." s2'0 => Str.read_digits ip 0 s2'0
                  | _ => (ip, 0%nat, String c s2')
                  end = (ip, 0%nat, String c s2')).
      { destruct c as [[] [] [] [] [] [] [] []]; try reflexivity.
        exfalso. apply Hne. reflexivity. }
      rewrite E. split; assumption. }
  destruct (match s2 with
            | String "." s2' => Str.read_digits ip 0 s2'
            | _ => (ip, O, s2)
            end) as [[m nf] s3].
  destruct Hfrac as [Hm Hs3].
  destruct (ni + nf)%nat; [left; reflexivity|right].
  rewrite (read_exponent_plain s3 Hs3).
  unfold price_ok. apply Qle_bool_iff. rewrite Qred_correct.
  apply Qmult_le_0_compat; [|apply pow10_nonneg].
  change 0%Q with (inject_Z 0). rewrite <- Zle_Qle. assumption.
Qed.

Lemma Forall_removelast {A : Type} (P : A -> Prop) (l : list A) :
  Forall P l -> Forall P (removelast l).
Proof.
  induction 1 as [|x l Hx Hl IH]; [constructor|].
  cbn [removelast]. destruct l; [constructor|]. constructor; assumption.
Qed.

Lemma Forall_last {A : Type} (P : A -> Prop) (l : list A) (d : A) :
  Forall P l -> P d -> P (List.last l d).
Proof.
  induction 1 as [|x l Hx Hl IH]; intros Hd; [exact Hd|].
  cbn [List.last]. destruct l; [exact Hx|]. apply IH. exact Hd.
Qed.

(** A parsed price is NaN (and then dropped by the scraper) or a finite
    number that is not negative. *)
Lemma parsePrice_nonneg (priceStr : string) :
  parsePrice priceStr = NaN \/ price_ok (parsePrice priceStr) = true.
Proof.
  unfold parsePrice.
  pose proof (split_chars digit_or_dot "." _ (cleaned_chars priceStr)) as Hparts.
  destruct (2 <? _)%nat; [|apply parseFloat_plain, cleaned_chars].
  apply parseFloat_plain.
  rewrite all_chars_app. apply andb_true_iff. split.
  - apply join_chars, Forall_removelast, Hparts.
  - change (all_chars digit_or_dot
              (String "." (List.last (Str.split "." (cleaned priceStr)) "")) = true).
    cbn [all_chars]. apply (Forall_last _ _ _ Hparts). reflexivity.
Qed.

(** The prices of the fallback table are such prices too. *)
Lemma fallback_prices_ok :
  forallb (fun r => forallb (fun p => price_ok (Raw.Price p)) (Raw.Plans r))
    getFallbackData = true.
Proof. vm_compute. reflexivity. Qed.

(** ** Conversion *)


Lemma convertToCNY_reference (price : number) (rates : gmap string number) :
  convertToCNY price "CNY" rates = (price, []).
Proof. reflexivity. Qed.


(** *** Missing rates *)

(** Without the rate of the currency, or without the rate of CNY,
    [convertToCNY] hands the price back and logs one warning. *)
Lemma convertToCNY_missing_rate (price : number) (currency : string)
    (rates : gmap string number) :
  rates !! currency = None \/ rates !! "CNY" = None ->
  fst (convertToCNY price currency rates) = price
  /\ (currency <> "CNY" ->
      snd (convertToCNY price currency rates) = [RateNotFound currency]).
Proof.
  intros H. unfold convertToCNY.
  destruct (String.eqb_spec currency "CNY") as [->|Hne]; [split; [reflexivity|congruence]|].
  destruct H as [-> | ->]; [|destruct (rates !! currency)]; split; reflexivity.
Qed.

(** [main] itself stops when the table has no CNY rate. *)
Lemma main_needs_CNY_rate (env : collect_env) (rates : gmap string number) :
  env_rates env = Some rates -> rates !! "CNY" = None ->
  main env = (Exit 1, []).
Proof. intros H1 H2. unfold main. rewrite H1, H2. reflexivity. Qed.

(** A currency the table does not know is a warning: the run completes
    with the unconverted price and one line on the console. *)
Lemma main_warns_on_unknown_currency :
  exists d,
    main env_unknown_currency = (Written d, [RateNotFound "EUR"])
    /\ List.map (fun r => List.map PriceInCNY (Plans r)) (regions d)
       = [[lit "0.99"]].
Proof. eexists. split; vm_compute; reflexivity. Qed.

(** C6.  With a rate table that lacks the CNY rate, [convertToCNY]
    hands the price back unchanged, yet [main] never gets to converting:
    its log line reads [rates.CNY.toFixed(4)], which throws, and the run
    ends with exit code 1. *)
Theorem main_aborts_without_CNY_rate :
  fst (convertToCNY (lit "0.99") "EUR" rates_without_CNY) = lit "0.99"
  /\ main env_without_CNY = (Exit 1, []).
Proof. split; vm_compute; reflexivity. Qed.

(** *** Finite prices *)

Lemma round2_is_finite (x : number) :
  is_finite x = true -> is_finite (round2 x) = true.
Proof. destruct x; try discriminate. reflexivity. Qed.

Lemma convertToCNY_finite (price : number) (currency : string)
    (rates : gmap string number) :
  finite_rates rates -> is_finite price = true ->
  is_finite (fst (convertToCNY price currency rates)) = true.
Proof.
  intros Hr Hp. unfold convertToCNY.
  destruct (String.eqb currency "CNY"); [exact Hp|].
  destruct (rates !! currency) as [u|] eqn:Hu; [|exact Hp].
  destruct (rates !! "CNY") as [c|] eqn:Hc; [|exact Hp].
  destruct (negb (truthy u) || negb (truthy c)) eqn:Ht; [exact Hp|].
  apply orb_false_iff in Ht. destruct Ht as [Htu Htc].
  apply negb_false_iff in Htu.
  pose proof (Hr _ _ Hu) as Fu. pose proof (Hr _ _ Hc) as Fc.
  destruct price as [| | |p], u as [| | |qu], c as [| | |qc]; try discriminate.
  cbn [fst]. unfold div. unfold truthy in Htu. apply negb_true_iff in Htu.
  rewrite Htu. reflexivity.
Qed.

Lemma map_log_Forall {A B : Type} (f : A -> B * list warning)
    (P : A -> Prop) (Q : B -> Prop) (l : list A) :
  (forall x, P x -> Q (fst (f x))) ->
  Forall P l -> Forall Q (fst (map_log f l)).
Proof.
  intros Hf. induction 1 as [|x l Hx Hl IH]; cbn [map_log]; [constructor|].
  specialize (Hf x Hx). destruct (f x) as [y w].
  destruct (map_log f l) as [ys ws]. constructor; assumption.
Qed.

Lemma normalizeRegion_finite (rates : gmap string number) (r : Raw.region) :
  finite_rates rates -> raw_finite r ->
  finite_prices (fst (normalizeRegion rates r)).
Proof.
  intros Hr Hf. unfold normalizeRegion, finite_prices.
  pose proof (map_log_Forall (normalizePlan rates (Raw.Currency r))
                (fun p => is_finite (Raw.Price p) = true)
                (fun p => is_finite (PriceInCNY p) = true)
                (Raw.Plans r)) as H.
  destruct (map_log _ (Raw.Plans r)) as [ps w]. cbn [fst Plans] in *.
  apply H; [|exact Hf].
  intros p Hp. unfold normalizePlan.
  pose proof (convertToCNY_finite (Raw.Price p) (Raw.Currency r) rates Hr Hp) as Hc.
  destruct (convertToCNY _ _ _) as [v w']. cbn [fst PriceInCNY] in *.
  apply round2_is_finite. assumption.
Qed.

Lemma price_ok_finite (n : number) : price_ok n = true -> is_finite n = true.
Proof. destruct n; try discriminate. reflexivity. Qed.

Lemma fallback_finite : Forall raw_finite getFallbackData.
Proof.
  pose proof fallback_prices_ok as H. rewrite forallb_forall in H.
  apply List.Forall_forall. intros r Hr. specialize (H r Hr).
  rewrite forallb_forall in H. apply List.Forall_forall. intros p Hp.
  apply price_ok_finite, H. assumption.
Qed.

(** What [main] persists (or previews) satisfies [finite_prices]. *)
Lemma main_finite_prices (env : collect_env) (rates : gmap string number)
    (d : dataset) (w : list warning) :
  env_rates env = Some rates -> finite_rates rates ->
  (forall scraped, env_scraped env = Some scraped -> Forall raw_finite scraped) ->
  main env = (Written d, w) \/ main env = (DryRun d, w) ->
  Forall finite_prices (regions d).
Proof.
  intros Hrates Hfin Hscr Hmain. unfold main in Hmain. rewrite Hrates in Hmain.
  destruct (rates !! "CNY"); [|destruct Hmain; discriminate].
  set (input := match env_scraped env with
                | Some regions =>
                    if (length regions =? 0)%nat then getFallbackData else regions
                | None => getFallbackData
                end) in Hmain.
  assert (Hinput : Forall raw_finite input).
  { unfold input. destruct (env_scraped env) as [scraped|]; [|apply fallback_finite].
    destruct (length scraped =? 0)%nat; [apply fallback_finite|].
    apply Hscr. reflexivity. }
  pose proof (map_log_Forall (normalizeRegion rates) raw_finite finite_prices input
                (fun r => normalizeRegion_finite rates r Hfin) Hinput) as Hconv.
  destruct (map_log (normalizeRegion rates) input) as [converted ws].
  cbn [fst] in Hconv.
  assert (Hd : regions d = sort compare50GB converted).
  { destruct (env_dry_run env); destruct Hmain as [H|H];
      try discriminate; injection H as <- _; reflexivity. }
  rewrite Hd. eapply Permutation_Forall; [symmetry; apply sort_perm|assumption].
Qed.

(** ** Ranking *)

Lemma find_plan_In (name : string) (plans : list plan) (p : plan) :
  find_plan name plans = Some p -> In p plans.
Proof. intros H. apply find_some in H. tauto. Qed.

(** *** Regions without the tier go last in [sortByPrice] *)

Lemma comparePlan_missing_stays (planName : string) (x y : region) :
  negb (has_plan planName x) = true ->
  goes_before (comparePlan planName) x y = false.
Proof.
  unfold has_plan, goes_before, comparePlan.
  destruct (find_plan planName (Plans x)); [discriminate|]. intros _.
  destruct (find_plan planName (Plans y)) as [p|]; [|reflexivity].
  destruct (PriceInCNY p); reflexivity.
Qed.

Lemma comparePlan_priced_passes (planName : string) (x y : region) :
  finite_prices x ->
  negb (has_plan planName x) = false -> negb (has_plan planName y) = true ->
  goes_before (comparePlan planName) x y = true.
Proof.
  unfold has_plan, goes_before, comparePlan, finite_prices.
  intros Hfin.
  destruct (find_plan planName (Plans x)) as [p|] eqn:Hp; [|discriminate].
  destruct (find_plan planName (Plans y)); [discriminate|]. intros _ _.
  apply find_plan_In in Hp.
  rewrite List.Forall_forall in Hfin. specialize (Hfin p Hp).
  destruct (PriceInCNY p); try discriminate. reflexivity.
Qed.

Lemma sortByPrice_missing_last (regions : list region) (planName : string) :
  Forall finite_prices regions ->
  exists priced,
    sortByPrice regions planName
    = priced ++ List.filter (fun r => negb (has_plan planName r)) regions
    /\ Forall (fun r => has_plan planName r = true) priced.
Proof.
  intros Hfin.
  destruct (sort_late_last (comparePlan planName)
              (fun r => negb (has_plan planName r)) finite_prices
              (comparePlan_missing_stays planName)
              (comparePlan_priced_passes planName) regions Hfin)
    as (priced & E & HP).
  exists priced. split; [exact E|].
  eapply Permutation_Forall; [symmetry; exact HP|].
  apply List.Forall_forall. intros r Hr. apply filter_In in Hr.
  destruct Hr as [_ Hr]. apply negb_true_iff in Hr.
  apply negb_false_iff. rewrite <- Hr. destruct (has_plan planName r); reflexivity.
Qed.

(** *** The two comparators *)

Lemma compare50GB_comparePlan (a b : region) :
  nonzero_benchmark a -> nonzero_benchmark b ->
  compare50GB a b = comparePlan "50GB" a b.
Proof.
  unfold nonzero_benchmark, compare50GB, comparePlan.
  destruct (find_plan "50GB" (Plans a)) as [pa|];
    destruct (find_plan "50GB" (Plans b)) as [pb|]; simpl;
    intros Ha Hb; rewrite ?Ha, ?Hb; reflexivity.
Qed.

(** Off the zero price the two sorts are one. *)
Lemma sorts_agree_off_zero (regions : list region) :
  Forall nonzero_benchmark regions ->
  sort compare50GB regions = sortByPrice regions "50GB".
Proof.
  intros H. unfold sortByPrice.
  apply (sort_ext _ _ nonzero_benchmark compare50GB_comparePlan). assumption.
Qed.

Lemma tier_key_rankable (planName : string) (r : region) :
  finite_prices r -> rankable (tier_key planName r) = true.
Proof.
  unfold finite_prices, tier_key. intros Hfin.
  destruct (find_plan planName (Plans r)) as [p|] eqn:Hp; [|reflexivity].
  apply find_plan_In in Hp. rewrite List.Forall_forall in Hfin.
  specialize (Hfin p Hp). destruct (PriceInCNY p); try discriminate. reflexivity.
Qed.

(** [sortByPrice] ranks by the tier's price: ascending, a missing tier
    as positive infinity, equal keys in input order. *)
Lemma sortByPrice_ranked (regions : list region) (planName : string) :
  Forall finite_prices regions ->
  ranked_by (tier_key planName) regions (sortByPrice regions planName).
Proof.
  intros Hfin. unfold sortByPrice. apply sort_ranked_by.
  - intros x y _ _. reflexivity.
  - eapply List.Forall_impl; [|exact Hfin].
    intros r Hr. apply tier_key_rankable. assumption.
Qed.

(** So does the dataset sort of [main], as long as no 50GB price is zero. *)
Lemma dataset_sort_ranked (regions : list region) :
  Forall finite_prices regions ->
  Forall nonzero_benchmark regions ->
  ranked_by (tier_key "50GB") regions (sort compare50GB regions).
Proof.
  intros Hfin Hnz. rewrite sorts_agree_off_zero by assumption.
  apply sortByPrice_ranked. assumption.
Qed.

(** C1.  Scraped regions XX (no 50GB plan), FR (50GB at 0) and CN (50GB
    at 6), all priced in CNY: the dataset sort of [main] reads the zero
    price as a missing one, so the persisted order is CN, XX, FR: not
    ascending by price, and a region without the tier stands in front
    of one that has it. *)
Theorem zero_price_ranked_last :
  ranking_of (fst (main env_zero_price))
  = [("CN", Some (Fin 6)); ("XX", None); ("FR", Some (Fin 0))].
Proof. vm_compute. reflexivity. Qed.
(** C8.  On the regions FR (50GB at 0) and CN (50GB at 6) the dataset
    sort of [main] answers CN, FR while [sortByPrice] for the tier 50GB
    answers FR, CN. *)
Theorem sorts_disagree_on_zero_price :
  List.map CountryISO (sort compare50GB zero_priced) = ["CN"; "FR"]
  /\ List.map CountryISO (sortByPrice zero_priced "50GB") = ["FR"; "CN"].
Proof. split; vm_compute; reflexivity. Qed.

(** ** The cache resolver *)

Section ResolverFacts.
Variable parse : string -> option value.

Ltac run_step :=
  unfold freshCache, bundledLocal, remoteFetch, staleCache, try_catch, bind,
    JSON_parse, Date_now, getFileMtime, readFile, writeFile, fetchRemote,
    getWorkflowDir, ret, throw.

(** *** No step lets an exception out *)

Lemma freshCache_returns (cachePath : string) (w : world) :
  exists r w', freshCache parse cachePath w = (Ok r, w').
Proof.
  run_step.
  destruct (_ && _); [|eexists _, _; reflexivity].
  destruct (nonempty _) as [t|]; [|eexists _, _; reflexivity].
  destruct (parse t); eexists _, _; reflexivity.
Qed.

Lemma bundledLocal_returns (cachePath : string) (w : world) :
  exists r w', bundledLocal parse cachePath w = (Ok r, w').
Proof.
  run_step.
  destruct (nonempty _) as [t|]; [|eexists _, _; reflexivity].
  destruct (parse t); eexists _, _; reflexivity.
Qed.

Lemma remoteFetch_returns (cachePath : string) (w : world) :
  exists r w', remoteFetch parse cachePath w = (Ok r, w').
Proof.
  run_step.
  destruct (nonempty _) as [t|]; [|eexists _, _; reflexivity].
  destruct (parse t); eexists _, _; reflexivity.
Qed.

Lemma staleCache_returns (cachePath : string) (w : world) :
  exists r w', staleCache parse cachePath w = (Ok r, w').
Proof.
  run_step.
  destruct (nonempty _) as [t|]; [|eexists _, _; reflexivity].
  destruct (parse t); eexists _, _; reflexivity.
Qed.

Lemma or_continue_returns (step : M (option value)) (rest : M value) :
  (forall w, exists r w', step w = (Ok r, w')) ->
  (forall w, exists v w', rest w = (Ok v, w')) ->
  forall w, exists v w', or_continue step rest w = (Ok v, w').
Proof.
  intros Hs Hr w. unfold or_continue, bind.
  destruct (Hs w) as (r & w' & ->).
  destruct r as [v|]; [eexists _, _; reflexivity|apply Hr].
Qed.

Lemma getPriceData_returns (w : world) :
  exists v w', getPriceData parse w = (Ok v, w').
Proof.
  unfold getPriceData, bind, getCacheDir, ensureDir, stepsAfterFresh.
  apply or_continue_returns; [apply freshCache_returns|].
  apply or_continue_returns; [apply bundledLocal_returns|].
  apply or_continue_returns; [apply remoteFetch_returns|].
  apply or_continue_returns; [apply staleCache_returns|].
  intros w0. eexists _, _; reflexivity.
Qed.

(** *** A step that finds nothing parseable falls through *)

Lemma same_outside_refl (w : world) : same_outside w w.
Proof. repeat split. Qed.

Lemma same_outside_log (e : event) (w w' : world) :
  same_outside w w' -> same_outside w (log e w').
Proof. exact (fun H => H). Qed.

Lemma same_outside_trans (w1 w2 w3 : world) :
  same_outside w1 w2 -> same_outside w2 w3 -> same_outside w1 w3.
Proof.
  unfold same_outside. intros (?&?&?&?&?) (?&?&?&?&?).
  repeat split; congruence.
Qed.

Lemma freshCache_falls_through (cachePath : string) (w : world) :
  unparseable parse (content <$> files w !! cachePath) ->
  exists w', freshCache parse cachePath w = (Ok None, w') /\ same_outside w w'.
Proof.
  unfold unparseable. run_step. cbn [files log].
  destruct (_ && _);
    [|eexists; split; [reflexivity|repeat apply same_outside_log; apply same_outside_refl]].
  destruct (nonempty _) as [t|]; [intros ->|intros _];
    (eexists; split; [reflexivity|repeat apply same_outside_log; apply same_outside_refl]).
Qed.

Lemma bundledLocal_falls_through (cachePath : string) (w : world) :
  unparseable parse (content <$> files w !! localPathOf w) ->
  exists w', bundledLocal parse cachePath w = (Ok None, w') /\ same_outside w w'.
Proof.
  unfold unparseable, localPathOf. run_step.
  destruct (nonempty _) as [t|]; [intros ->|intros _];
    (eexists; split; [reflexivity|repeat apply same_outside_log; apply same_outside_refl]).
Qed.

Lemma remoteFetch_falls_through (cachePath : string) (w : world) :
  unparseable parse (remote w) ->
  exists w', remoteFetch parse cachePath w = (Ok None, w') /\ same_outside w w'.
Proof.
  unfold unparseable. run_step.
  destruct (nonempty _) as [t|]; [intros ->|intros _];
    (eexists; split; [reflexivity|repeat apply same_outside_log; apply same_outside_refl]).
Qed.

Lemma staleCache_falls_through (cachePath : string) (w : world) :
  unparseable parse (content <$> files w !! cachePath) ->
  exists w', staleCache parse cachePath w = (Ok None, w') /\ same_outside w w'.
Proof.
  unfold unparseable. run_step. cbn [files log].
  destruct (nonempty _) as [t|]; [intros ->|intros _];
    (eexists; split; [reflexivity|repeat apply same_outside_log; apply same_outside_refl]).
Qed.

Lemma files_log (e : event) (w : world) : files (log e w) = files w.
Proof. reflexivity. Qed.

Lemma or_continue_falls_through (step : M (option value)) (rest : M value)
    (w w' : world) :
  step w = (Ok None, w') -> or_continue step rest w = rest w'.
Proof. unfold or_continue, bind. intros ->. reflexivity. Qed.

Lemma or_continue_answers (step : M (option value)) (rest : M value)
    (w w' : world) (v : value) :
  step w = (Ok (Some v), w') -> or_continue step rest w = (Ok v, w').
Proof. unfold or_continue, bind. intros ->. reflexivity. Qed.

(** C3.  When the cache file, the bundled copy and the remote answer
    each are absent, empty or rejected by [JSON.parse], [getPriceData]
    returns [null], having changed nothing but the trace; and in every
    world it returns a value: no exception leaves it. *)
Theorem total_failure_returns_null (w : world) :
  unparseable parse (content <$> files w !! cachePathOf w) ->
  unparseable parse (content <$> files w !! localPathOf w) ->
  unparseable parse (remote w) ->
  (exists w', getPriceData parse w = (Ok null, w') /\ same_outside w w')
  /\ (forall w0, exists v w', getPriceData parse w0 = (Ok v, w')).
Proof.
  intros Hcache Hlocal Hremote. split; [|apply getPriceData_returns].
  unfold getPriceData, getCacheDir, ensureDir, stepsAfterFresh.
  unfold bind at 1 2. fold (cachePathOf w).
  set (w1 := log (EnsureDir (cacheDir w)) w).
  assert (S1 : same_outside w w1) by (apply same_outside_log, same_outside_refl).
  destruct (freshCache_falls_through (cachePathOf w) w1) as (w2 & E2 & S2);
    [exact Hcache|].
  rewrite (or_continue_falls_through _ _ _ _ E2).
  pose proof (same_outside_trans _ _ _ S1 S2) as S12.
  destruct (bundledLocal_falls_through (cachePathOf w) w2) as (w3 & E3 & S3).
  { unfold localPathOf. destruct S12 as (-> & _ & _ & _ & ->). exact Hlocal. }
  rewrite (or_continue_falls_through _ _ _ _ E3).
  pose proof (same_outside_trans _ _ _ S12 S3) as S13.
  destruct (remoteFetch_falls_through (cachePathOf w) w3) as (w4 & E4 & S4).
  { destruct S13 as (_ & -> & _). exact Hremote. }
  rewrite (or_continue_falls_through _ _ _ _ E4).
  pose proof (same_outside_trans _ _ _ S13 S4) as S14.
  destruct (staleCache_falls_through (cachePathOf w) w4) as (w5 & E5 & S5).
  { destruct S14 as (-> & _). exact Hcache. }
  rewrite (or_continue_falls_through _ _ _ _ E5).
  exists w5. split; [reflexivity|].
  exact (same_outside_trans _ _ _ S14 S5).
Qed.


End ResolverFacts.

(** A corrupt cache file, no bundled copy, and curl printing an error. *)
Lemma total_failure_witness :
  (exists w', getPriceData sample_parse world_broken = (Ok null, w')
              /\ same_outside world_broken w')
  /\ (forall w0, exists v w', getPriceData sample_parse w0 = (Ok v, w')).
Proof.
  apply (total_failure_returns_null sample_parse world_broken).
  - reflexivity.
  - exact I.
  - reflexivity.
Defined.



(** ** Tokens of a query *)

Lemma readToken_cases (sp sq : option string) (part : string) :
  readToken (sp, sq) part
  = (if is_tier part then Some (Str.toUpperCase part) else sp,
     if is_region_token part then Some part else sq).
Proof.
  unfold readToken, is_region_token, is_tier.
  destruct (in_list part PLAN_TYPES); [reflexivity|].
  destruct (2 <=? String.length part)%nat; reflexivity.
Qed.

Lemma readTokens_from (parts : list string) (acc : option string * option string) :
  fold_left readToken parts acc
  = (match last (List.filter is_tier parts) with
     | Some t => Some (Str.toUpperCase t)
     | None => fst acc
     end,
     match last (List.filter is_region_token parts) with
     | Some q => Some q
     | None => snd acc
     end).
Proof.
  revert acc. induction parts as [|part parts IH]; intros [sp sq].
  - reflexivity.
  - cbn [fold_left List.filter]. rewrite IH, readToken_cases.
    cbn [fst snd].
    destruct (is_tier part), (is_region_token part);
      rewrite ?last_cons;
      destruct (last (List.filter is_tier parts));
      destruct (last (List.filter is_region_token parts)); reflexivity.
Qed.

Lemma tier_upper_nonempty (t : string) :
  is_tier t = true -> nonempty (Some (Str.toUpperCase t)) = Some (Str.toUpperCase t).
Proof.
  unfold is_tier, in_list, PLAN_TYPES. simpl. intros H.
  repeat (apply orb_true_iff in H; destruct H as [H|H];
          [apply String.eqb_eq in H; subst; reflexivity|]).
  discriminate.
Qed.

Lemma last_filter_holds {A : Type} (f : A -> bool) (l : list A) (x : A) :
  last (List.filter f l) = Some x -> f x = true.
Proof.
  intros H. apply last_Some in H. destruct H as [l' E].
  assert (Hin : In x (List.filter f l)) by (rewrite E; apply in_or_app; right; left; reflexivity).
  apply filter_In in Hin. tauto.
Qed.


(** ** Ranked query items *)

Lemma rankedItems_app (sel : string) (l1 l2 : list region) (idx : nat) :
  rankedItems sel idx (l1 ++ l2)
  = rankedItems sel idx l1 ++ rankedItems sel (idx + length l1) l2.
Proof.
  revert idx. induction l1 as [|r l1 IH]; intros idx; simpl.
  - rewrite Nat.add_0_r. reflexivity.
  - rewrite IH. replace (S idx + length l1)%nat with (idx + S (length l1))%nat by lia.
    destruct (find_plan sel (Plans r)); reflexivity.
Qed.

Lemma rankedItems_regions (sel : string) (l : list region) (idx : nat) :
  List.map item_region (rankedItems sel idx l) = List.filter (has_plan sel) l.
Proof.
  revert idx. induction l as [|r l IH]; intros idx; simpl; [reflexivity|].
  unfold has_plan at 1.
  destruct (find_plan sel (Plans r)); simpl; rewrite IH; reflexivity.
Qed.

Lemma rankedItems_lookup (sel : string) (l : list region) (idx : nat) (it : item) :
  In it (rankedItems sel idx l) ->
  exists i : nat,
    l !! i = Some (item_region it)
    /\ item_rank it = Position (idx + i + 1)
    /\ find_plan sel (Plans (item_region it)) = Some (item_plan it).
Proof.
  revert idx. induction l as [|r l IH]; intros idx; simpl; [tauto|].
  destruct (find_plan sel (Plans r)) as [p|] eqn:Hp.
  - intros [<- | Hin].
    + exists 0%nat. simpl. rewrite Nat.add_0_r. auto.
    + destruct (IH _ Hin) as (i & Hi & Hr & Hf).
      exists (S i). simpl. rewrite Hr. repeat split; auto; f_equal; lia.
  - intros Hin. destruct (IH _ Hin) as (i & Hi & Hr & Hf).
    exists (S i). simpl. rewrite Hr. repeat split; auto; f_equal; lia.
Qed.

Lemma rankedItems_priced (sel : string) (l : list region) (idx : nat) :
  Forall (fun r => has_plan sel r = true) l ->
  List.map item_rank (rankedItems sel idx l)
  = List.map Position (seq (idx + 1) (length l)).
Proof.
  intros H. revert idx. induction H as [|r l Hr _ IH]; intros idx; simpl.
  - reflexivity.
  - unfold has_plan in Hr.
    destruct (find_plan sel (Plans r)); [|discriminate].
    simpl. rewrite IH. reflexivity.
Qed.

Lemma rankedItems_unpriced (sel : string) (l : list region) (idx : nat) :
  rankedItems sel idx (List.filter (fun r => negb (has_plan sel r)) l) = [].
Proof.
  revert idx. induction l as [|r l IH]; intros idx; simpl; [reflexivity|].
  unfold has_plan at 1.
  destruct (find_plan sel (Plans r)) eqn:Hp; simpl; [apply IH|].
  rewrite Hp. apply IH.
Qed.

Lemma queryItems_ranked (filtered : list region) (sel : string)
    (searchQuery : option string) :
  nonempty searchQuery = None \/ length filtered <> 1%nat ->
  queryItems filtered sel searchQuery
  = rankedItems sel 0 (sortByPrice filtered sel).
Proof.
  unfold queryItems. intros [-> | Hlen]; [reflexivity|].
  destruct (nonempty searchQuery); [|reflexivity].
  destruct filtered as [|r [|r' l]]; try reflexivity.
  simpl in Hlen. congruence.
Qed.

(** C9.  In the ranked path of a query (no region filter, or a filter
    that does not leave exactly one region), over regions with finite
    prices: a region without the selected tier yields no item; every
    item carries the 1-based index of its region in the sorted list
    together with that region's plan of the tier; and the ranks of the
    items are 1, 2, 3, ... without a gap. *)
Theorem ranked_query_items (filtered : list region) (selectedPlan : string)
    (searchQuery : option string) :
  nonempty searchQuery = None \/ length filtered <> 1%nat ->
  Forall finite_prices filtered ->
  let sorted := sortByPrice filtered selectedPlan in
  let items := queryItems filtered selectedPlan searchQuery in
  (forall r, In r filtered ->
             find_plan selectedPlan (Plans r) = None ->
             ~ In r (List.map item_region items))
  /\ (forall it, In it items ->
        exists i : nat,
          sorted !! i = Some (item_region it)
          /\ item_rank it = Position (i + 1)
          /\ find_plan selectedPlan (Plans (item_region it)) = Some (item_plan it))
  /\ List.map item_rank items = List.map Position (seq 1 (length items)).
Proof.
  intros Hpath Hfin sorted items.
  assert (Hitems : items = rankedItems selectedPlan 0 sorted)
    by (apply queryItems_ranked; assumption).
  split; [|split].
  - intros r _ Hnone Hin. rewrite Hitems, rankedItems_regions in Hin.
    apply filter_In in Hin. destruct Hin as [_ Hin].
    unfold has_plan in Hin. rewrite Hnone in Hin. discriminate.
  - intros it Hin. rewrite Hitems in Hin.
    destruct (rankedItems_lookup _ _ _ _ Hin) as (i & Hi & Hr & Hf).
    exists i. auto.
  - destruct (sortByPrice_missing_last filtered selectedPlan Hfin)
      as (priced & E & Hpriced).
    fold sorted in E.
    assert (Hitems' : items = rankedItems selectedPlan 0 priced).
    { rewrite Hitems, E, rankedItems_app, rankedItems_unpriced.
      apply app_nil_r. }
    assert (Hlen : length items = length priced).
    { rewrite <- (length_map item_rank), Hitems', rankedItems_priced by assumption.
      rewrite length_map, length_seq. reflexivity. }
    rewrite Hlen, Hitems'. apply rankedItems_priced. assumption.
Qed.

(** Three regions, one of them without the 50GB tier. *)
Lemma ranked_query_items_witness :
  List.map (fun it => (uid it, item_rank it))
    (queryItems some_regions "50GB" None)
  = [("CN-50GB", Position 1); ("JP-50GB", Position 2)]
  /\ List.map item_rank (queryItems some_regions "50GB" None)
     = List.map Position (seq 1 (length (queryItems some_regions "50GB" None))).
Proof.
  split; [reflexivity|].
  apply (ranked_query_items some_regions "50GB" None).
  - left. reflexivity.
  - repeat constructor.
Defined.

(** ** The entry point *)

Section RunFacts.
Variable parse : string -> option value.

(** When data is there and the filter leaves regions, the items of the
    answer are those of [queryItems], followed by the update notice. *)
Lemma run_answers (argv : list string) (w w' : world) (data : dataset) :
  let query := Str.trim (Str.toLowerCase (Str.join_with " " argv)) in
  let selectedPlan := defaultPlan (fst (readTokens (tokens query))) in
  let searchQuery := snd (readTokens (tokens query)) in
  let filtered := filterRegions (regions data) searchQuery in
  String.eqb query "help" || String.eqb query "?" = false ->
  getPriceData parse w = (Ok (Some data), w') ->
  regions data <> [] -> filtered <> [] ->
  exists notice,
    run parse argv w
    = (Ok (ItemsOutput
             (List.map PlanEntry (queryItems filtered selectedPlan searchQuery)
              ++ notice)), w').
Proof.
  intros query selectedPlan searchQuery filtered Hhelp Hdata Hregions Hfiltered.
  unfold run. fold query. rewrite Hhelp.
  subst selectedPlan searchQuery filtered.
  destruct (readTokens (tokens query)) as [sp sq]. cbn [fst snd] in *.
  unfold bind. rewrite Hdata.
  destruct (regions data) as [|r rs] eqn:Hr; [congruence|].
  cbn [length Nat.eqb].
  destruct (filterRegions (r :: rs) sq) as [|f fs] eqn:Hf; [congruence|].
  cbn [length Nat.eqb].
  destruct (nonempty (Some (lastUpdated data))).
  - eexists. reflexivity.
  - exists []. rewrite app_nil_r. reflexivity.
Qed.
End RunFacts.

(** * Further properties *)

(** ** Ranking, conversion and the collection run *)

(** X1.  For finite prices [sortByPrice] returns the one array that the
    ranking rule allows. *)
Theorem sortByPrice_is_the_ranking (regions : list region) (planName : string) :
  Forall finite_prices regions ->
  ranked_by (tier_key planName) regions (sortByPrice regions planName)
  /\ forall other,
       ranked_by (tier_key planName) regions other ->
       other = sortByPrice regions planName.
Proof.
  intros Hfin.
  assert (Hkeys : Forall (fun r => rankable (tier_key planName r) = true) regions).
  { eapply List.Forall_impl; [|exact Hfin].
    intros r Hr. apply tier_key_rankable. assumption. }
  pose proof (sortByPrice_ranked regions planName Hfin) as Hranked.
  split; [exact Hranked|].
  intros other Hother.
  exact (ranked_by_unique (tier_key planName) regions other _ Hkeys Hother Hranked).
Qed.

Lemma sortByPrice_is_the_ranking_witness :
  ranked_by (tier_key "50GB") some_regions (sortByPrice some_regions "50GB")
  /\ forall other,
       ranked_by (tier_key "50GB") some_regions other ->
       other = sortByPrice some_regions "50GB".
Proof.
  apply (sortByPrice_is_the_ranking some_regions "50GB").
  repeat constructor.
Defined.

(** X2.  The dataset sort of [main] is that ranking for the tier 50GB as
    long as no 50GB price is 0. *)
Theorem dataset_sort_is_the_ranking (regions : list region) :
  Forall finite_prices regions ->
  Forall nonzero_benchmark regions ->
  ranked_by (tier_key "50GB") regions (sort compare50GB regions)
  /\ forall other,
       ranked_by (tier_key "50GB") regions other ->
       other = sort compare50GB regions.
Proof.
  intros Hfin Hnz.
  assert (Hkeys : Forall (fun r => rankable (tier_key "50GB" r) = true) regions).
  { eapply List.Forall_impl; [|exact Hfin].
    intros r Hr. apply tier_key_rankable. assumption. }
  pose proof (dataset_sort_ranked regions Hfin Hnz) as Hranked.
  split; [exact Hranked|].
  intros other Hother.
  exact (ranked_by_unique (tier_key "50GB") regions other _ Hkeys Hother Hranked).
Qed.

Lemma dataset_sort_is_the_ranking_witness :
  ranked_by (tier_key "50GB") some_regions (sort compare50GB some_regions)
  /\ forall other,
       ranked_by (tier_key "50GB") some_regions other ->
       other = sort compare50GB some_regions.
Proof.
  apply (dataset_sort_is_the_ranking some_regions).
  - repeat constructor.
  - repeat constructor.
Defined.

(** Normalizing adds a field and nothing else. *)
Lemma forget_normalizePlan (rates : gmap string number) (currency : string)
    (p : Raw.plan) :
  forget_plan (fst (normalizePlan rates currency p)) = p.
Proof.
  unfold normalizePlan. destruct (convertToCNY _ _ _) as [v w].
  destruct p; reflexivity.
Qed.

Lemma map_log_map {A B : Type} (f : A -> B * list warning) (l : list A) :
  fst (map_log f l) = List.map (fun x => fst (f x)) l.
Proof.
  induction l as [|x l IH]; [reflexivity|]. cbn [map_log List.map].
  destruct (f x) as [y w]. destruct (map_log f l) as [ys ws].
  cbn [fst] in *. rewrite IH. reflexivity.
Qed.

Lemma forget_normalizeRegion (rates : gmap string number) (r : Raw.region) :
  forget (fst (normalizeRegion rates r)) = r.
Proof.
  unfold normalizeRegion.
  pose proof (map_log_map (normalizePlan rates (Raw.Currency r)) (Raw.Plans r)) as H.
  destruct (map_log _ (Raw.Plans r)) as [ps w]. cbn [fst] in *. subst ps.
  unfold forget. cbn [CountryISO Country Currency Plans].
  rewrite List.map_map.
  rewrite (List.map_ext _ (fun p => p)) by (intros p; apply forget_normalizePlan).
  rewrite List.map_id. destruct r; reflexivity.
Qed.

(** X3.  With a CNY rate in the table the run ends with a dataset that
    holds, up to order and the added [PriceInCNY], exactly the scraped
    regions, or those of the fallback table when the scrape threw or
    found nothing; it is never empty. *)
Theorem main_persists_every_region (env : collect_env)
    (rates : gmap string number) (cny : number) :
  env_rates env = Some rates ->
  rates !! "CNY" = Some cny ->
  exists d w,
    main env = (if env_dry_run env then DryRun d else Written d, w)
    /\ Permutation (List.map forget (regions d))
         (match env_scraped env with
          | Some [] | None => getFallbackData
          | Some scraped => scraped
          end)
    /\ regions d <> []
    /\ lastUpdated d = env_now env.
Proof.
  intros Hrates Hcny. unfold main. rewrite Hrates, Hcny.
  set (input := match env_scraped env with
                | Some regions =>
                    if (length regions =? 0)%nat then getFallbackData else regions
                | None => getFallbackData
                end).
  assert (Hinput : input = match env_scraped env with
                           | Some [] | None => getFallbackData
                           | Some scraped => scraped
                           end).
  { unfold input. destruct (env_scraped env) as [[|r rs]|]; reflexivity. }
  assert (Hne : input <> []).
  { rewrite Hinput. destruct (env_scraped env) as [[|r rs]|]; discriminate. }
  rewrite <- Hinput.
  pose proof (map_log_map (normalizeRegion rates) input) as Hmap.
  destruct (map_log (normalizeRegion rates) input) as [converted w].
  cbn [fst] in Hmap.
  eexists _, w. split; [reflexivity|]. cbn [regions lastUpdated].
  assert (Hperm : Permutation (List.map forget (sort compare50GB converted)) input).
  { rewrite (sort_perm compare50GB converted). rewrite Hmap, List.map_map.
    rewrite (List.map_ext _ (fun r => r)) by (intros r; apply forget_normalizeRegion).
    rewrite List.map_id. reflexivity. }
  split; [exact Hperm|]. split; [|reflexivity].
  intros Hnil. rewrite Hnil in Hperm. cbn in Hperm.
  apply Permutation_nil in Hperm. contradiction.
Qed.

Lemma main_persists_every_region_witness :
  exists d w,
    main env_scrape_failed = (DryRun d, w)
    /\ Permutation (List.map forget (regions d)) getFallbackData
    /\ regions d <> []
    /\ lastUpdated d = "2024-01-01T00:00:00.000Z".
Proof.
  apply (main_persists_every_region env_scrape_failed rates_USD_CNY (lit "7.2")).
  - reflexivity.
  - reflexivity.
Defined.

(** A rate that is missing, 0 or NaN is no rate. *)
Lemma truthy_usable (rates : gmap string number) (currency : string) (n : number) :
  rates !! currency = Some n -> truthy n = true -> usable_rate rates currency.
Proof. intros H1 H2. exists n. split; assumption. Qed.



(** The other direction: with usable finite rates the price is converted
    and nothing is logged. *)
Lemma round2_le (x y : Q) :
  (x <= y)%Q -> key_le (round2 (Fin x)) (round2 (Fin y)).
Proof.
  intros Hxy. unfold key_le. rewrite !round2_finite. unfold ltb.
  assert (H : (Qred (inject_Z (Qfloor (x * 100 + (1 # 2))) / 100)
               <= Qred (inject_Z (Qfloor (y * 100 + (1 # 2))) / 100))%Q).
  { rewrite !Qred_correct. apply Qmult_le_compat_r; [|discriminate].
    rewrite <- Zle_Qle. apply Qfloor_resp_le.
    apply Qplus_le_l. apply Qmult_le_compat_r; [assumption|discriminate]. }
  destruct (Qred (inject_Z (Qfloor (y * 100 + (1 # 2))) / 100)
            ?= Qred (inject_Z (Qfloor (x * 100 + (1 # 2))) / 100))%Q eqn:E;
    try reflexivity.
  exfalso. apply Qlt_alt in E. exact (Qle_not_lt _ _ H E).
Qed.

(** X5.  Within one currency the conversion keeps the order of prices: a
    plan that is not dearer in local currency is not dearer in CNY. *)
Theorem conversion_keeps_price_order (rates : gmap string number)
    (currency : string) (usdRate cnyRate p q : Q) :
  rates !! currency = Some (Fin usdRate) ->
  rates !! "CNY" = Some (Fin cnyRate) ->
  (0 < usdRate)%Q -> (0 < cnyRate)%Q -> (p <= q)%Q ->
  key_le (round2 (fst (convertToCNY (Fin p) currency rates)))
         (round2 (fst (convertToCNY (Fin q) currency rates))).
Proof.
  intros Husd Hcny Hu Hc Hpq. unfold convertToCNY.
  destruct (String.eqb currency "CNY"); [apply round2_le; assumption|].
  rewrite Husd, Hcny.
  rewrite (truthy_positive _ Hu), (truthy_positive _ Hc). cbn [negb orb fst].
  unfold div. rewrite (is_zero_positive _ Hu). unfold mul.
  apply round2_le. rewrite !Qred_correct.
  apply Qmult_le_compat_r; [|apply Qlt_le_weak; assumption].
  apply Qmult_le_compat_r; [assumption|].
  apply Qlt_le_weak, Qinv_lt_0_compat. assumption.
Qed.

Lemma conversion_keeps_price_order_witness :
  key_le (round2 (fst (convertToCNY (lit "0.99") "EUR" rates_EUR)))
         (round2 (fst (convertToCNY (lit "2.99") "EUR" rates_EUR))).
Proof.
  exact (conversion_keeps_price_order rates_EUR "EUR" (23 # 25) (36 # 5)
           (99 # 100) (299 # 100)
           ltac:(reflexivity) ltac:(reflexivity)
           ltac:(reflexivity) ltac:(reflexivity) ltac:(discriminate)).
Defined.

Lemma round2_in_hundredths (x : number) :
  is_finite x = true -> in_hundredths (round2 x).
Proof.
  destruct x as [| | |q]; try discriminate. intros _.
  exists (Qfloor (q * 100 + (1 # 2))). apply round2_finite.
Qed.

Lemma normalizeRegion_hundredths (rates : gmap string number) (r : Raw.region) :
  finite_rates rates -> raw_finite r ->
  Forall (fun p => in_hundredths (PriceInCNY p))
    (Plans (fst (normalizeRegion rates r))).
Proof.
  intros Hr Hf. unfold normalizeRegion.
  pose proof (map_log_Forall (normalizePlan rates (Raw.Currency r))
                (fun p => is_finite (Raw.Price p) = true)
                (fun p => in_hundredths (PriceInCNY p))
                (Raw.Plans r)) as H.
  destruct (map_log _ (Raw.Plans r)) as [ps w]. cbn [fst Plans] in *.
  apply H; [|exact Hf].
  intros p Hp. unfold normalizePlan.
  pose proof (convertToCNY_finite (Raw.Price p) (Raw.Currency r) rates Hr Hp) as Hc.
  destruct (convertToCNY _ _ _) as [v w']. cbn [fst PriceInCNY] in *.
  apply round2_in_hundredths. assumption.
Qed.


Lemma rates_USD_CNY_finite : finite_rates rates_USD_CNY.
Proof.
  intros currency n H. unfold rates_USD_CNY in H.
  apply lookup_insert_Some in H. destruct H as [[_ <-]|[_ H]]; [reflexivity|].
  apply lookup_insert_Some in H. destruct H as [[_ <-]|[_ H]]; [reflexivity|].
  rewrite lookup_empty in H. discriminate.
Qed.


(** *** Warnings *)

Lemma convertToCNY_warns (price : number) (currency : string)
    (rates : gmap string number) :
  snd (convertToCNY price currency rates)
  = if converts rates currency then [] else [RateNotFound currency].
Proof.
  unfold convertToCNY, converts.
  destruct (String.eqb currency "CNY"); [reflexivity|]. cbn [orb].
  destruct (rates !! currency) as [u|]; [|reflexivity].
  destruct (rates !! "CNY") as [c|]; [|destruct (truthy u); reflexivity].
  destruct (truthy u), (truthy c); reflexivity.
Qed.

Lemma map_log_warnings {A B : Type} (f : A -> B * list warning) (l : list A) :
  snd (map_log f l) = flat_map (fun x => snd (f x)) l.
Proof.
  induction l as [|x l IH]; [reflexivity|]. cbn [map_log flat_map].
  destruct (f x) as [y w]. destruct (map_log f l) as [ys ws].
  cbn [snd] in *. rewrite IH. reflexivity.
Qed.

Lemma normalizeRegion_warns (rates : gmap string number) (r : Raw.region) :
  snd (normalizeRegion rates r)
  = if converts rates (Raw.Currency r) then []
    else List.map (fun _ => RateNotFound (Raw.Currency r)) (Raw.Plans r).
Proof.
  unfold normalizeRegion.
  pose proof (map_log_warnings (normalizePlan rates (Raw.Currency r)) (Raw.Plans r))
    as H.
  destruct (map_log _ (Raw.Plans r)) as [ps w]. cbn [snd] in *. subst w.
  induction (Raw.Plans r) as [|p ps' IH].
  - destruct (converts rates (Raw.Currency r)); reflexivity.
  - cbn [flat_map List.map]. rewrite IH. unfold normalizePlan at 1.
    pose proof (convertToCNY_warns (Raw.Price p) (Raw.Currency r) rates) as Hw.
    destruct (convertToCNY (Raw.Price p) (Raw.Currency r) rates) as [v w].
    cbn [snd] in *. subst w.
    destruct (converts rates (Raw.Currency r)); reflexivity.
Qed.

(** X7.  A run that has a CNY rate warns once for every plan it could not
    convert, and for no other: the warnings are those of the plans, in
    page order, whose region's currency is not CNY and has no usable
    rate (or CNY has none). *)
Theorem main_warns_for_each_unconverted_plan (env : collect_env)
    (rates : gmap string number) (cny : number) :
  env_rates env = Some rates ->
  rates !! "CNY" = Some cny ->
  snd (main env)
  = expected_warnings rates
      (match env_scraped env with
       | Some [] | None => getFallbackData
       | Some scraped => scraped
       end).
Proof.
  intros Hrates Hcny. unfold main. rewrite Hrates, Hcny.
  assert (Hinput : match env_scraped env with
                   | Some regions =>
                       if (length regions =? 0)%nat then getFallbackData else regions
                   | None => getFallbackData
                   end
                   = match env_scraped env with
                     | Some [] | None => getFallbackData
                     | Some scraped => scraped
                     end).
  { destruct (env_scraped env) as [[|r rs]|]; reflexivity. }
  rewrite Hinput.
  set (input := match env_scraped env with
                | Some [] | None => getFallbackData
                | Some scraped => scraped
                end).
  pose proof (map_log_warnings (normalizeRegion rates) input) as Hw.
  destruct (map_log (normalizeRegion rates) input) as [converted w].
  cbn [snd] in *. subst w. unfold expected_warnings.
  induction input as [|r input IH]; [reflexivity|].
  cbn [flat_map]. rewrite IH, normalizeRegion_warns. reflexivity.
Qed.

Lemma main_warns_for_each_unconverted_plan_witness :
  snd (main env_unknown_currency)
  = expected_warnings rates_USD_CNY [R "DE" "Germany" "EUR" [P "50GB" "0.99"]].
Proof.
  apply (main_warns_for_each_unconverted_plan env_unknown_currency
           rates_USD_CNY (lit "7.2")).
  - reflexivity.
  - reflexivity.
Defined.

(** ** The value of a price text *)

Lemma read_digits_run (digits rest : string) (acc : Z) (n : nat) :
  all_chars Str.is_digit digits = true ->
  match rest with String c _ => Str.is_digit c = false | EmptyString => True end ->
  Str.read_digits acc n (digits ++ rest)
  = (fold_left (fun acc c => (10 * acc + Str.digit_val c)%Z)
       (list_ascii_of_string digits) acc,
     (n + String.length digits)%nat, rest).
Proof.
  intros Hd Hrest. revert acc n.
  induction digits as [|c digits IH]; intros acc n.
  - change (Str.read_digits acc n rest = (acc, (n + 0)%nat, rest)).
    rewrite Nat.add_0_r. destruct rest as [|c rest]; [reflexivity|].
    cbn [Str.read_digits]. rewrite Hrest. reflexivity.
  - cbn [all_chars] in Hd. apply andb_true_iff in Hd. destruct Hd as [Hc Hd].
    change (Str.read_digits acc n (String c (digits ++ rest))
            = (fold_left (fun acc c => (10 * acc + Str.digit_val c)%Z)
                 (list_ascii_of_string digits) (10 * acc + Str.digit_val c)%Z,
               (n + S (String.length digits))%nat, rest)).
    cbn [Str.read_digits]. rewrite Hc, (IH Hd). f_equal. f_equal. lia.
Qed.

Lemma list_ascii_app (s t : string) :
  list_ascii_of_string (s ++ t)
  = list_ascii_of_string s ++ list_ascii_of_string t.
Proof.
  induction s as [|c s IH]; [reflexivity|].
  change (c :: list_ascii_of_string (s ++ t)%string
          = c :: (list_ascii_of_string s ++ list_ascii_of_string t)).
  rewrite IH. reflexivity.
Qed.

Lemma string_length_app (s t : string) :
  String.length (s ++ t) = (String.length s + String.length t)%nat.
Proof.
  induction s as [|c s IH]; [reflexivity|].
  change (S (String.length (s ++ t)%string) = S (String.length s + String.length t)).
  rewrite IH. reflexivity.
Qed.

Lemma digit_is_plain (c : ascii) :
  Str.is_digit c = true -> digit_or_dot c = true.
Proof. unfold digit_or_dot. intros ->. reflexivity. Qed.

Lemma digits_are_plain (s : string) :
  all_chars Str.is_digit s = true -> all_chars digit_or_dot s = true.
Proof.
  induction s as [|c s IH]; [reflexivity|]. cbn [all_chars].
  intros H. apply andb_true_iff in H. destruct H as [Hc Hs].
  rewrite (digit_is_plain c Hc), (IH Hs). reflexivity.
Qed.

Lemma parseFloat_head (s : string) :
  all_chars digit_or_dot s = true ->
  Str.read_sign (Str.skip_spaces s) = (false, s)
  /\ Str.starts_with "Infinity" s = false.
Proof.
  intros Hs. destruct s as [|c s]; [split; reflexivity|].
  cbn [all_chars] in Hs. apply andb_true_iff in Hs. destruct Hs as [Hc _].
  destruct (digit_or_dot_plain c Hc) as (Hsp & Hsign & Hinf & _).
  cbn [Str.skip_spaces]. rewrite Hsp. split; [apply Hsign|apply Hinf].
Qed.

(** [parseFloat] on a numeral with a decimal point. *)
Lemma parseFloat_decimal (whole frac : string) :
  all_chars Str.is_digit whole = true ->
  all_chars Str.is_digit frac = true ->
  Str.parseFloat (whole ++ "." ++ frac) = decimal whole frac.
Proof.
  intros Hw Hf. unfold Str.parseFloat.
  assert (Hall : all_chars digit_or_dot (whole ++ "." ++ frac) = true).
  { rewrite all_chars_app, (digits_are_plain _ Hw).
    change (all_chars digit_or_dot (String "." frac) = true).
    cbn [all_chars]. rewrite (digits_are_plain _ Hf). reflexivity. }
  destruct (parseFloat_head _ Hall) as [-> ->].
  change (whole ++ "." ++ frac)%string with (whole ++ String "." frac)%string.
  rewrite (read_digits_run whole (String "." frac) 0 0 Hw) by reflexivity.
  cbn [Nat.add].
  pose proof (read_digits_run frac "" (fold_left
              (fun acc c => (10 * acc + Str.digit_val c)%Z)
              (list_ascii_of_string whole) 0%Z) 0 Hf I) as Hr.
  rewrite append_empty_r in Hr. rewrite Hr. cbn [Nat.add].
  unfold decimal.
  assert (Hval : fold_left (fun acc c => (10 * acc + Str.digit_val c)%Z)
                   (list_ascii_of_string frac)
                   (fold_left (fun acc c => (10 * acc + Str.digit_val c)%Z)
                      (list_ascii_of_string whole) 0%Z)
                 = digits_value (whole ++ frac)).
  { unfold digits_value. rewrite list_ascii_app, fold_left_app. reflexivity. }
  rewrite Hval.
  destruct (whole ++ frac)%string as [|c rest] eqn:E.
  - assert (Hlen : (String.length whole + String.length frac)%nat = 0%nat)
      by (rewrite <- string_length_app, E; reflexivity).
    rewrite Hlen. reflexivity.
  - assert (Hlen : (String.length whole + String.length frac)%nat
                   = S (String.length rest))
      by (rewrite <- string_length_app, E; reflexivity).
    rewrite Hlen. f_equal. apply Qred_complete.
    change (Str.read_exponent "") with 0%Z.
    unfold Str.pow10.
    destruct (String.length frac) as [|k].
    + reflexivity.
    + assert (Hneg : (0 <=? 0 - Z.of_nat (S k))%Z = false) by (apply Z.leb_gt; lia).
      rewrite Hneg.
      replace (- (0 - Z.of_nat (S k)))%Z with (Z.of_nat (S k)) by lia.
      reflexivity.
Qed.

(** [parseFloat] on a numeral without a decimal point. *)
Lemma parseFloat_whole (whole : string) :
  all_chars Str.is_digit whole = true ->
  Str.parseFloat whole = decimal whole "".
Proof.
  intros Hw. unfold Str.parseFloat.
  destruct (parseFloat_head _ (digits_are_plain _ Hw)) as [-> ->].
  pose proof (read_digits_run whole "" 0 0 Hw I) as Hr.
  rewrite append_empty_r in Hr. rewrite Hr. cbn [Nat.add].
  unfold decimal. rewrite append_empty_r.
  fold (digits_value whole).
  destruct whole as [|c rest]; [reflexivity|].
  cbn [String.length Nat.add]. f_equal.
Qed.

Lemma split_dot_digits (s : string) :
  all_chars digit_or_dot s = true ->
  Forall (fun p => all_chars Str.is_digit p = true) (Str.split "." s).
Proof.
  induction s as [|c s IH]; cbn [Str.split all_chars].
  - repeat constructor.
  - intros H. apply andb_true_iff in H. destruct H as [Hc Hs].
    specialize (IH Hs). unfold digit_or_dot in Hc.
    destruct (Ascii.eqb c ".").
    + constructor; [reflexivity|assumption].
    + rewrite orb_false_r in Hc.
      destruct (Str.split "." s) as [|p ps].
      * repeat constructor. cbn [all_chars]. rewrite Hc. reflexivity.
      * inversion IH; subst. constructor; [|assumption].
        cbn [all_chars]. rewrite Hc. assumption.
Qed.

Lemma removelast_snoc {A : Type} (l : list A) (x : A) :
  removelast (l ++ [x]) = l.
Proof. apply removelast_last. Qed.



(** ** The scraper *)

Lemma span_passes (f : ascii -> bool) (s : string) :
  all_chars f (fst (span f s)) = true.
Proof.
  induction s as [|c s IH]; [reflexivity|]. cbn [span].
  destruct (f c) eqn:Hc; [|reflexivity].
  destruct (span f s) as [run rest]. cbn [fst all_chars] in *.
  rewrite Hc, IH. reflexivity.
Qed.

Lemma unit_at_upper (s unit rest : string) :
  unit_at s = Some (unit, rest) ->
  Str.toUpperCase unit = "GB" \/ Str.toUpperCase unit = "TB".
Proof.
  destruct s as [|g [|b s]]; try discriminate. cbn [unit_at].
  destruct (Ascii.eqb_spec g "G") as [->|_];
    [|destruct (Ascii.eqb_spec g "g") as [->|_];
      [|destruct (Ascii.eqb_spec g "T") as [->|_];
        [|destruct (Ascii.eqb_spec g "t") as [->|_]; [|discriminate]]]];
    (destruct (Ascii.eqb_spec b "B") as [->|_];
      [|destruct (Ascii.eqb_spec b "b") as [->|_]; [|discriminate]]);
    cbn [orb andb]; intros H; injection H as <- _;
    (left; reflexivity) || (right; reflexivity).
Qed.

Lemma plan_at_name (s size unit priceStr : string) :
  plan_at s = Some (size, unit, priceStr) ->
  tier_name (size ++ Str.toUpperCase unit).
Proof.
  unfold plan_at. pose proof (span_passes Str.is_digit s) as Hdigits.
  destruct (span Str.is_digit s) as [run rest]. cbn [fst] in Hdigits.
  destruct run as [|d run]; [discriminate|].
  destruct (unit_at (Str.skip_spaces rest)) as [[u rest']|] eqn:Hu; [|discriminate].
  destruct (separator_then_price rest') as [price|]; [|discriminate].
  intros H. injection H as <- <- _.
  exists (String d run), (Str.toUpperCase u).
  split; [reflexivity|]. split; [discriminate|]. split; [exact Hdigits|].
  exact (unit_at_upper _ _ _ Hu).
Qed.

Lemma plan_match_name (text size unit priceStr : string) :
  plan_match text = Some (size, unit, priceStr) ->
  tier_name (size ++ Str.toUpperCase unit).
Proof.
  induction text as [|c text IH]; cbn [plan_match].
  - destruct (plan_at "") as [m|] eqn:E; [|discriminate].
    intros H. injection H as ->. exact (plan_at_name _ _ _ _ E).
  - destruct (plan_at (String c text)) as [m|] eqn:E; [|exact IH].
    intros H. injection H as ->. exact (plan_at_name _ _ _ _ E).
Qed.

Lemma scrapePlan_ok (li : string) (p : Raw.plan) :
  scrapePlan li = Some p ->
  price_ok (Raw.Price p) = true /\ tier_name (Raw.Name p).
Proof.
  unfold scrapePlan.
  destruct (plan_match (Str.trim li)) as [[[size unit] priceStr]|] eqn:Hm;
    [|discriminate].
  destruct (parsePrice_nonneg priceStr) as [Hnan|Hok].
  - rewrite Hnan. discriminate.
  - destruct (isNaN (parsePrice priceStr)); [discriminate|].
    intros H. injection H as <-. cbn [Raw.Price Raw.Name].
    split; [exact Hok|]. exact (plan_match_name _ _ _ _ Hm).
Qed.

Lemma omap_Forall {A B : Type} (f : A -> option B) (P : B -> Prop) (l : list A) :
  (forall x y, f x = Some y -> P y) -> Forall P (omap f l).
Proof.
  intros Hf. induction l as [|x l IH]; [constructor|].
  cbn [omap list_omap]. destruct (f x) as [y|] eqn:E; [|exact IH].
  constructor; [exact (Hf x y E)|exact IH].
Qed.

Lemma currency_suffix_code (s currency : string) :
  currency_suffix s = Some currency -> currency_code currency.
Proof.
  unfold currency_suffix.
  destruct (Str.skip_spaces s) as [|o [|a [|b [|c [|z [|? ?]]]]]]; try discriminate.
  destruct (Ascii.eqb o "("); [|discriminate].
  destruct (is_word a) eqn:Ha; [|discriminate].
  destruct (is_word b) eqn:Hb; [|discriminate].
  destruct (is_word c) eqn:Hc; [|discriminate].
  destruct (Ascii.eqb z ")"); [|discriminate].
  intros H. injection H as <-. split; [reflexivity|].
  cbn [all_chars]. rewrite Ha, Hb, Hc. reflexivity.
Qed.

Lemma header_match_code (text name currency : string) :
  header_match text = Some (name, currency) -> currency_code currency.
Proof.
  revert name. induction text as [|c text IH]; intros name; cbn [header_match].
  - discriminate.
  - destruct (is_line_terminator c); [discriminate|].
    destruct (currency_suffix text) as [cur|] eqn:E.
    + intros H. injection H as _ <-. exact (currency_suffix_code _ _ E).
    + destruct (header_match text) as [[n cur]|]; [|discriminate].
      intros H. injection H as _ <-. exact (IH n eq_refl).
Qed.

Lemma scrapeHeading_ok (header : heading) (r : Raw.region) :
  scrapeHeading header = Some r -> scraped_ok r.
Proof.
  unfold scrapeHeading.
  destruct (header_match (Str.trim (heading_text header))) as [[name cur]|] eqn:Hm;
    [|discriminate].
  destruct (list_items header) as [|li lis]; [discriminate|].
  pose proof (omap_Forall scrapePlan
                (fun p => price_ok (Raw.Price p) = true /\ tier_name (Raw.Name p))
                (li :: lis) scrapePlan_ok) as Hplans.
  destruct (omap scrapePlan (li :: lis)) as [|p ps]; [discriminate|].
  intros H. injection H as <-. unfold scraped_ok. cbn [Raw.Plans Raw.Currency].
  split; [discriminate|]. split; [exact Hplans|].
  exact (header_match_code _ _ _ Hm).
Qed.


Lemma scraped_raw_finite (page : list heading) :
  Forall raw_finite (parseApplePricing page).
Proof.
  unfold parseApplePricing. apply omap_Forall. intros header r Hr.
  destruct (scrapeHeading_ok header r Hr) as (_ & Hplans & _).
  unfold raw_finite. eapply List.Forall_impl; [|exact Hplans].
  intros p [Hp _]. apply price_ok_finite. exact Hp.
Qed.


Lemma rates_EUR_finite : finite_rates rates_EUR.
Proof.
  intros currency n H. unfold rates_EUR, rates_USD_CNY in H.
  apply lookup_insert_Some in H. destruct H as [[_ <-]|[_ H]]; [reflexivity|].
  apply lookup_insert_Some in H. destruct H as [[_ <-]|[_ H]]; [reflexivity|].
  apply lookup_insert_Some in H. destruct H as [[_ <-]|[_ H]]; [reflexivity|].
  rewrite lookup_empty in H. discriminate.
Qed.


(** *** The formats the patterns are written for *)

Lemma line_terminator_is_space (c : ascii) :
  Str.is_space c = false -> is_line_terminator c = false.
Proof.
  unfold Str.is_space, is_line_terminator.
  destruct (Nat.eqb_spec (Str.code c) 10) as [->|_]; [discriminate|].
  destruct (Nat.eqb_spec (Str.code c) 13) as [->|_]; [discriminate|].
  reflexivity.
Qed.

Lemma skip_spaces_gap (gap : string) (c : ascii) (t : string) :
  all_chars Str.is_space gap = true -> Str.is_space c = false ->
  Str.skip_spaces (gap ++ String c t) = String c t.
Proof.
  intros Hgap Hc. induction gap as [|g gap IH].
  - change (Str.skip_spaces (String c t) = String c t).
    cbn [Str.skip_spaces]. rewrite Hc. reflexivity.
  - cbn [all_chars] in Hgap. apply andb_true_iff in Hgap. destruct Hgap as [Hg Hgap].
    change (Str.skip_spaces (String g (gap ++ String c t)) = String c t).
    cbn [Str.skip_spaces]. rewrite Hg. exact (IH Hgap).
Qed.

Lemma skip_spaces_keeps (init : string) (c : ascii) (t : string) :
  Str.is_space c = false ->
  (S (String.length t) <= String.length (Str.skip_spaces (init ++ String c t)))%nat.
Proof.
  intros Hc. induction init as [|x init IH].
  - change (S (String.length t)
            <= String.length (Str.skip_spaces (String c t)))%nat.
    cbn [Str.skip_spaces]. rewrite Hc. cbn [String.length]. lia.
  - change (S (String.length t)
            <= String.length (Str.skip_spaces (String x (init ++ String c t))))%nat.
    cbn [Str.skip_spaces]. destruct (Str.is_space x); [exact IH|].
    cbn [String.length]. rewrite string_length_app. cbn [String.length]. lia.
Qed.

Lemma currency_suffix_length (s currency : string) :
  currency_suffix s = Some currency ->
  String.length (Str.skip_spaces s) = 5%nat.
Proof.
  unfold currency_suffix.
  destruct (Str.skip_spaces s) as [|o [|a [|b [|c [|z [|? ?]]]]]]; try discriminate.
  reflexivity.
Qed.

Lemma currency_suffix_exact (gap currency : string) :
  all_chars Str.is_space gap = true -> currency_code currency ->
  currency_suffix (gap ++ "(" ++ currency ++ ")") = Some currency.
Proof.
  intros Hgap [Hlen Hword].
  destruct currency as [|a [|b [|c [|? ?]]]]; try discriminate.
  cbn [all_chars] in Hword.
  apply andb_true_iff in Hword. destruct Hword as [Ha Hword].
  apply andb_true_iff in Hword. destruct Hword as [Hb Hword].
  apply andb_true_iff in Hword. destruct Hword as [Hc _].
  unfold currency_suffix.
  change (gap ++ "(" ++ String a (String b (String c "")) ++ ")")%string
    with (gap ++ String "(" (String a (String b (String c ")"))))%string.
  rewrite (skip_spaces_gap gap "(" _ Hgap) by reflexivity.
  rewrite Ha, Hb, Hc. reflexivity.
Qed.

(** X11.  A heading "Name (CUR)" is read as the country Name and the
    currency CUR: for every name that has no line break and does not
    end in white space, whatever white space separates it from the
    bracket, and every currency of three word characters. *)
Theorem heading_format_is_read (init : string) (last : ascii)
    (gap currency : string) :
  all_chars (fun c => negb (is_line_terminator c)) init = true ->
  Str.is_space last = false ->
  all_chars Str.is_space gap = true ->
  currency_code currency ->
  header_match ((init ++ String last "") ++ gap ++ "(" ++ currency ++ ")")
  = Some (init ++ String last "", currency)%string.
Proof.
  intros Hinit Hlast Hgap Hcur.
  pose proof (currency_suffix_exact gap currency Hgap Hcur) as Hsuffix.
  set (tail := (gap ++ "(" ++ currency ++ ")")%string) in *.
  assert (Htail : (5 <= String.length tail)%nat).
  { apply currency_suffix_length in Hsuffix.
    rewrite <- Hsuffix. clear. induction tail as [|c t IH]; [cbn; lia|].
    cbn [Str.skip_spaces]. destruct (Str.is_space c); [|lia].
    cbn [String.length]. lia. }
  induction init as [|x init IH].
  - change (header_match (String last tail) = Some (String last "", currency)).
    cbn [header_match]. rewrite (line_terminator_is_space last Hlast), Hsuffix.
    reflexivity.
  - cbn [all_chars] in Hinit. apply andb_true_iff in Hinit.
    destruct Hinit as [Hx Hinit]. apply negb_true_iff in Hx.
    change (header_match (String x ((init ++ String last "") ++ tail))
            = Some (String x (init ++ String last ""), currency)).
    cbn [header_match]. rewrite Hx, (IH Hinit).
    destruct (currency_suffix ((init ++ String last "") ++ tail)) as [cur|] eqn:E;
      [|reflexivity].
    exfalso. apply currency_suffix_length in E.
    assert (Hshape : ((init ++ String last "") ++ tail)%string
                     = (init ++ String last tail)%string).
    { clear. induction init as [|y init IH]; [reflexivity|].
      change (String y ((init ++ String last "") ++ tail)%string
              = String y (init ++ String last tail)%string).
      rewrite IH. reflexivity. }
    rewrite Hshape in E.
    pose proof (skip_spaces_keeps init last tail Hlast) as Hkeep. lia.
Qed.

Lemma heading_format_is_read_witness :
  header_match (("China mainlan" ++ String "d" "") ++ "  " ++ "(" ++ "CNY" ++ ")")
  = Some ("China mainlan" ++ String "d" "", "CNY")%string.
Proof.
  apply (heading_format_is_read "China mainlan" "d" "  " "CNY").
  - reflexivity.
  - reflexivity.
  - reflexivity.
  - split; reflexivity.
Defined.

Lemma span_run (f : ascii -> bool) (run rest : string) :
  all_chars f run = true ->
  match rest with String c _ => f c = false | EmptyString => True end ->
  span f (run ++ rest) = (run, rest).
Proof.
  intros Hrun Hrest. induction run as [|c run IH].
  - change (span f rest = ("", rest)). destruct rest as [|c rest]; [reflexivity|].
    cbn [span]. rewrite Hrest. reflexivity.
  - cbn [all_chars] in Hrun. apply andb_true_iff in Hrun. destruct Hrun as [Hc Hrun].
    change (span f (String c (run ++ rest)) = (String c run, rest)).
    cbn [span]. rewrite Hc, (IH Hrun). reflexivity.
Qed.

Lemma space_not_digit (c : ascii) :
  Str.is_space c = true -> Str.is_digit c = false.
Proof.
  destruct c as [[] [] [] [] [] [] [] []]; vm_compute; congruence.
Qed.

Lemma plan_match_at (s : string) (m : string * string * string) :
  plan_at s = Some m -> plan_match s = Some m.
Proof. intros H. destruct s; cbn [plan_match]; rewrite H; reflexivity. Qed.

Lemma separator_not_space (c : ascii) :
  is_separator c = false -> Str.is_space c = false.
Proof. unfold is_separator. intros H. apply orb_false_iff in H. tauto. Qed.

Lemma price_after_separators (seps : string) (p0 : ascii) (ptail : string) :
  seps <> "" -> all_chars is_separator seps = true ->
  is_separator p0 = false ->
  all_chars (fun c => negb (is_line_terminator c)) ptail = true ->
  separator_then_price (seps ++ String p0 ptail) = Some (String p0 ptail).
Proof.
  intros Hne Hseps Hp0 Hptail.
  assert (Hline : rest_of_line (String p0 ptail) = Some (String p0 ptail)).
  { unfold rest_of_line.
    pose proof (span_run (fun c => negb (is_line_terminator c))
                  (String p0 ptail) "") as Hspan.
    rewrite append_empty_r in Hspan. rewrite Hspan; [reflexivity| |exact I].
    cbn [all_chars].
    rewrite (line_terminator_is_space p0 (separator_not_space p0 Hp0)).
    exact Hptail. }
  induction seps as [|c seps IH]; [contradiction|].
  cbn [all_chars] in Hseps. apply andb_true_iff in Hseps. destruct Hseps as [Hc Hseps].
  change (separator_then_price (String c (seps ++ String p0 ptail))
          = Some (String p0 ptail)).
  cbn [separator_then_price]. rewrite Hc.
  destruct seps as [|c' seps].
  - change (match separator_then_price (String p0 ptail) with
            | Some price => Some price
            | None => rest_of_line (String p0 ptail)
            end = Some (String p0 ptail)).
    cbn [separator_then_price]. rewrite Hp0. exact Hline.
  - rewrite IH; [reflexivity|discriminate|exact Hseps].
Qed.

(** X12.  A list item "<digits> <unit><separators><price>" adds the plan
    named by the digits and the unit in capitals, at the price
    [parsePrice] reads off the rest, unless that is NaN: for GB or TB in
    any case, any white space before the unit, any run of colons and
    white space after it, and a price text on one line. *)
Theorem plan_format_is_read (li size gap unit seps : string) (p0 : ascii)
    (ptail : string) :
  Str.trim li = (size ++ gap ++ unit ++ seps ++ String p0 ptail)%string ->
  size <> "" -> all_chars Str.is_digit size = true ->
  all_chars Str.is_space gap = true ->
  In unit ["GB"; "TB"; "gb"; "tb"; "Gb"; "Tb"; "gB"; "tB"] ->
  seps <> "" -> all_chars is_separator seps = true ->
  is_separator p0 = false ->
  all_chars (fun c => negb (is_line_terminator c)) ptail = true ->
  scrapePlan li
  = if isNaN (parsePrice (String p0 ptail)) then None
    else Some {| Raw.Name := (size ++ Str.toUpperCase unit)%string;
                 Raw.Price := parsePrice (String p0 ptail) |}.
Proof.
  intros Htrim Hsize Hdigits Hgap Hunit Hseps Hsep Hp0 Hptail.
  unfold scrapePlan. rewrite Htrim.
  pose proof (price_after_separators seps p0 ptail Hseps Hsep Hp0 Hptail) as Hprice.
  set (price := String p0 ptail) in *.
  assert (Hat : plan_at (size ++ gap ++ unit ++ seps ++ price)
                = Some (size, unit, price)).
  { unfold plan_at.
    assert (Hunit' : exists g b,
               unit = String g (String b "")
               /\ Str.is_space g = false /\ Str.is_digit g = false
               /\ unit_at (String g (String b (seps ++ price)))
                  = Some (unit, (seps ++ price)%string)).
    { cbn [In] in Hunit.
      repeat (destruct Hunit as [<- | Hunit];
              [eexists _, _; repeat split; reflexivity|]).
      contradiction. }
    destruct Hunit' as (g & b & -> & Hg & Hgd & Hu).
    change (String g (String b "") ++ seps ++ price)%string
      with (String g (String b (seps ++ price))).
    rewrite (span_run Str.is_digit size).
    - destruct size as [|d size]; [contradiction|].
      rewrite (skip_spaces_gap gap g _ Hgap Hg), Hu, Hprice. reflexivity.
    - exact Hdigits.
    - destruct gap as [|s gap].
      + exact Hgd.
      + cbn [all_chars] in Hgap. apply andb_true_iff in Hgap.
        destruct Hgap as [Hs _].
        exact (space_not_digit s Hs). }
  rewrite (plan_match_at _ _ Hat). reflexivity.
Qed.

Lemma plan_format_is_read_witness :
  scrapePlan "  200 gb:  1.234,50 kr "
  = if isNaN (parsePrice (String "1" ".234,50 kr")) then None
    else Some {| Raw.Name := ("200" ++ Str.toUpperCase "gb")%string;
                 Raw.Price := parsePrice (String "1" ".234,50 kr") |}.
Proof.
  apply (plan_format_is_read "  200 gb:  1.234,50 kr " "200" " " "gb" ":  "
           "1" ".234,50 kr").
  - reflexivity.
  - discriminate.
  - reflexivity.
  - reflexivity.
  - cbn [In]. tauto.
  - discriminate.
  - reflexivity.
  - reflexivity.
  - reflexivity.
Defined.

(** ** fetchURL *)

(** X13.  Redirects are followed however many there are: a fetch of the
    first URL of a chain of redirects settles exactly as a fetch of the
    chain's target does, and a URL that redirects to itself keeps the
    promise pending for ever. *)
Theorem redirects_are_followed_without_bound (net : string -> response) :
  (forall chain target fuel,
      redirect_chain net chain target ->
      fetchURL (length chain + fuel) net (List.hd target chain)
      = fetchURL fuel net target)
  /\ (forall url,
        redirect (net url) = Some url ->
        forall fuel, fetchURL fuel net url = None).
Proof.
  split.
  - intros chain. induction chain as [|url rest IH]; intros target fuel Hchain.
    + reflexivity.
    + destruct Hchain as [Hurl Hrest].
      cbn [length Nat.add List.hd fetchURL]. rewrite Hurl.
      exact (IH target fuel Hrest).
  - intros url Hloop fuel. induction fuel as [|fuel IH]; [reflexivity|].
    cbn [fetchURL]. rewrite Hloop. exact IH.
Qed.

Lemma fetchURL_resolved (net : string -> response) (fuel : nat) (url data : string) :
  fetchURL fuel net url = Some (Resolved data) ->
  exists final location, net final = Answered 200 location data.
Proof.
  revert url. induction fuel as [|fuel IH]; intros url; [discriminate|].
  cbn [fetchURL]. destruct (redirect (net url)) as [next|]; [apply IH|].
  destruct (net url) as [statusCode location body| |] eqn:Hnet; try discriminate.
  destruct (Z.eqb_spec statusCode 200) as [->|_]; [|discriminate].
  intros H. injection H as <-. exists url, location. exact Hnet.
Qed.

(** X14.  Only a response with status 200 resolves the promise, with that
    response's body; a response with any other status that does not
    redirect rejects it with that status, and so do an error and a
    timeout with their own errors. *)
Theorem only_status_200_resolves (net : string -> response) (fuel : nat)
    (url : string) :
  (forall data,
      fetchURL fuel net url = Some (Resolved data) ->
      exists final location, net final = Answered 200 location data)
  /\ (forall statusCode location body,
        net url = Answered statusCode location body ->
        redirect (net url) = None ->
        fetchURL (S fuel) net url
        = Some (if (statusCode =? 200)%Z then Resolved body
                else Rejected (HttpStatus statusCode)))
  /\ (net url = Failed -> fetchURL (S fuel) net url = Some (Rejected RequestError))
  /\ (net url = TimedOut ->
      fetchURL (S fuel) net url = Some (Rejected RequestTimeout)).
Proof.
  split; [intros data; apply fetchURL_resolved|].
  split; [|split].
  - intros statusCode location body Hnet Hno. cbn [fetchURL].
    rewrite Hno, Hnet. destruct (statusCode =? 200)%Z; reflexivity.
  - intros Hnet. cbn [fetchURL]. rewrite Hnet. reflexivity.
  - intros Hnet. cbn [fetchURL]. rewrite Hnet. reflexivity.
Qed.

(** ** The resolver, step by step *)

Section ResolverSteps.
Variable parse : string -> option value.

Ltac run_step :=
  unfold freshCache, bundledLocal, remoteFetch, staleCache, try_catch, bind,
    JSON_parse, Date_now, getFileMtime, readFile, writeFile, fetchRemote,
    getWorkflowDir, ret, throw.

Lemma or_continue_eval (step : M (option value)) (rest : M value)
    (w w' : world) (r : option value) :
  step w = (Ok r, w') ->
  or_continue step rest w
  = match r with Some v => (Ok v, w') | None => rest w' end.
Proof. unfold or_continue, bind. intros ->. destruct r; reflexivity. Qed.

Lemma text_at_log (e : event) (w : world) (p : string) :
  text_at (log e w) p = text_at w p.
Proof. reflexivity. Qed.

Lemma localPathOf_log (e : event) (w : world) :
  localPathOf (log e w) = localPathOf w.
Proof. reflexivity. Qed.

Lemma clock_log (e : event) (w : world) : clock (log e w) = clock w.
Proof. reflexivity. Qed.

Lemma remote_log (e : event) (w : world) : remote (log e w) = remote w.
Proof. reflexivity. Qed.

(** Each step, read off the world it starts in. *)
Lemma freshCache_eval (cachePath : string) (w : world) :
  let m := match files w !! cachePath with Some f => mtime f | None => 0%Z end in
  let fresh := negb (m =? 0)%Z && (clock w - m <? Config.cacheTTL)%Z in
  freshCache parse cachePath w
  = (Ok (if fresh then snd <$> parsed parse (text_at w cachePath) else None),
     if fresh then log (ReadFile cachePath) (log (Stat cachePath) w)
     else log (Stat cachePath) w).
Proof.
  run_step. unfold parsed, text_at. cbn [files clock log]. cbv zeta.
  destruct (_ && _); [|reflexivity].
  cbv beta. rewrite ?files_log.
  destruct (nonempty (content <$> files w !! cachePath)) as [t|]; [|reflexivity].
  destruct (parse t); reflexivity.
Qed.

Lemma bundledLocal_eval (cachePath : string) (w : world) :
  bundledLocal parse cachePath w
  = (Ok (snd <$> parsed parse (text_at w (localPathOf w))),
     match parsed parse (text_at w (localPathOf w)) with
     | Some (text, _) =>
         log (WriteFile cachePath)
           (set_files (<[cachePath := {| content := text; mtime := clock w |}]>
                         (files w))
              (log (ReadFile (localPathOf w)) w))
     | None => log (ReadFile (localPathOf w)) w
     end).
Proof.
  run_step. unfold parsed, text_at, localPathOf. cbn [files clock log]. cbv zeta.
  destruct (nonempty (content <$> files w !! _)) as [t|]; [|reflexivity].
  destruct (parse t); reflexivity.
Qed.

Lemma remoteFetch_eval (cachePath : string) (w : world) :
  remoteFetch parse cachePath w
  = (Ok (snd <$> parsed parse (nonempty (remote w))),
     match parsed parse (nonempty (remote w)) with
     | Some (text, _) =>
         log (WriteFile cachePath)
           (set_files (<[cachePath := {| content := text; mtime := clock w |}]>
                         (files w))
              (log (FetchRemote Config.dataURL) w))
     | None => log (FetchRemote Config.dataURL) w
     end).
Proof.
  run_step. unfold parsed. cbn [files clock log remote]. cbv zeta.
  destruct (nonempty (remote w)) as [t|]; [|reflexivity].
  destruct (parse t); reflexivity.
Qed.

Lemma staleCache_eval (cachePath : string) (w : world) :
  staleCache parse cachePath w
  = (Ok (snd <$> parsed parse (text_at w cachePath)),
     log (ReadFile cachePath) w).
Proof.
  run_step. unfold parsed, text_at.
  destruct (nonempty (content <$> files w !! cachePath)) as [t|]; [|reflexivity].
  destruct (parse t); reflexivity.
Qed.

Lemma stepsAfterFresh_cases (cachePath : string) (w : world) :
  let lp := localPathOf w in
  let w2 := log (ReadFile lp) w in
  let w3 := log (FetchRemote Config.dataURL) w2 in
  let written text :=
    <[cachePath := {| content := text; mtime := clock w |}]> (files w) in
  stepsAfterFresh parse cachePath w
  = match parsed parse (text_at w lp) with
    | Some (text, v) =>
        (Ok v, log (WriteFile cachePath) (set_files (written text) w2))
    | None =>
        match parsed parse (nonempty (remote w)) with
        | Some (text, v) =>
            (Ok v, log (WriteFile cachePath) (set_files (written text) w3))
        | None =>
            (Ok (match parsed parse (text_at w cachePath) with
                 | Some (_, v) => v
                 | None => null
                 end),
             log (ReadFile cachePath) w3)
        end
    end.
Proof.
  intros lp w2 w3 written. unfold stepsAfterFresh.
  rewrite (or_continue_eval _ _ _ _ _ (bundledLocal_eval cachePath w)).
  fold lp. destruct (parsed parse (text_at w lp)) as [[text v]|]; [reflexivity|].
  cbn [fmap option_fmap option_map].
  rewrite (or_continue_eval _ _ _ _ _ (remoteFetch_eval cachePath _)).
  change (remote (log (ReadFile lp) w)) with (remote w).
  destruct (parsed parse (nonempty (remote w))) as [[text v]|]; [reflexivity|].
  cbn [fmap option_fmap option_map].
  rewrite (or_continue_eval _ _ _ _ _ (staleCache_eval cachePath _)).
  change (text_at (log (FetchRemote Config.dataURL) (log (ReadFile lp) w)) cachePath)
    with (text_at w cachePath).
  destruct (parsed parse (text_at w cachePath)) as [[text v]|]; reflexivity.
Qed.

(** The whole of [getPriceData], read off the world it starts in. *)
Lemma getPriceData_cases (w : world) :
  let cp := cachePathOf w in
  let lp := localPathOf w in
  let w1 := if is_fresh w
            then logs [ReadFile cp; Stat cp; EnsureDir (cacheDir w)] w
            else logs [Stat cp; EnsureDir (cacheDir w)] w in
  let w2 := log (ReadFile lp) w1 in
  let w3 := log (FetchRemote Config.dataURL) w2 in
  getPriceData parse w
  = match (if is_fresh w then parsed parse (text_at w cp) else None) with
    | Some (_, v) => (Ok v, w1)
    | None =>
        match parsed parse (text_at w lp) with
        | Some (text, v) =>
            (Ok v, log (WriteFile cp) (set_files (cache_written w text) w2))
        | None =>
            match parsed parse (nonempty (remote w)) with
            | Some (text, v) =>
                (Ok v, log (WriteFile cp) (set_files (cache_written w text) w3))
            | None =>
                (Ok (match parsed parse (text_at w cp) with
                     | Some (_, v) => v
                     | None => null
                     end),
                 log (ReadFile cp) w3)
            end
        end
    end.
Proof.
  intros cp lp w1 w2 w3.
  change (getPriceData parse w)
    with (or_continue (freshCache parse cp) (stepsAfterFresh parse cp)
            (log (EnsureDir (cacheDir w)) w)).
  rewrite (or_continue_eval _ _ _ _ _ (freshCache_eval cp _)).
  change (negb (match files (log (EnsureDir (cacheDir w)) w) !! cp with
                | Some f => mtime f | None => 0%Z end =? 0)%Z
          && (clock (log (EnsureDir (cacheDir w)) w)
              - match files (log (EnsureDir (cacheDir w)) w) !! cp with
                | Some f => mtime f | None => 0%Z end <? Config.cacheTTL)%Z)
    with (is_fresh w).
  change (text_at (log (EnsureDir (cacheDir w)) w) cp) with (text_at w cp).
  subst w3 w2 w1. unfold cache_written. fold cp.
  destruct (is_fresh w).
  - destruct (parsed parse (text_at w cp)) as [[text v]|] eqn:Hp; [reflexivity|].
    cbn [fmap option_fmap option_map].
    rewrite stepsAfterFresh_cases. cbv zeta.
    rewrite ?text_at_log, ?localPathOf_log, ?files_log, ?clock_log, ?remote_log, Hp.
    reflexivity.
  - rewrite stepsAfterFresh_cases. reflexivity.
Qed.

Lemma cache_miss_falls_through (w : world) :
  cache_miss parse w ->
  (if is_fresh w then parsed parse (text_at w (cachePathOf w)) else None) = None.
Proof.
  intros [Hexp | Hun].
  - unfold cache_expired in Hexp. unfold is_fresh.
    destruct (files w !! cachePathOf w) as [f|]; [|reflexivity].
    destruct Hexp as [-> | Hold]; [reflexivity|].
    destruct (negb (mtime f =? 0)%Z); [|reflexivity].
    replace (clock w - mtime f <? Config.cacheTTL)%Z with false; [reflexivity|].
    symmetry. apply Z.ltb_ge. assumption.
  - destruct (is_fresh w); [|reflexivity].
    unfold unparseable in Hun. unfold parsed, text_at.
    destruct (nonempty (content <$> files w !! cachePathOf w)); [|reflexivity].
    rewrite Hun. reflexivity.
Qed.

Lemma unparseable_parsed (text : option string) :
  unparseable parse text -> parsed parse (nonempty text) = None.
Proof.
  unfold unparseable, parsed. destruct (nonempty text); [|reflexivity].
  intros ->. reflexivity.
Qed.

Lemma nonempty_idem (text : option string) :
  nonempty (nonempty text) = nonempty text.
Proof. destruct text as [[|c s]|]; reflexivity. Qed.

Lemma trace_logs (es : list event) (w : world) :
  trace (logs es w) = es ++ trace w.
Proof.
  induction es as [|e es IH]; [reflexivity|].
  change (e :: trace (logs es w) = (e :: es) ++ trace w).
  rewrite IH. reflexivity.
Qed.

Lemma served_text_parsed (w : world) (text : string) (v : value) :
  served_text parse w text -> parse text = Some v ->
  parsed parse (text_at w (localPathOf w)) = Some (text, v)
  \/ (parsed parse (text_at w (localPathOf w)) = None
      /\ parsed parse (nonempty (remote w)) = Some (text, v)).
Proof.
  intros [Hl | [Hl Hr]] Hv.
  - left. unfold parsed. rewrite Hl, Hv. reflexivity.
  - right. split.
    + unfold text_at. apply unparseable_parsed. assumption.
    + unfold parsed. rewrite Hr, Hv. reflexivity.
Qed.

(** X15.  On a cache miss the next source that parses is the answer, and
    its text becomes the cache file, stamped with the current time (a
    write is taken to succeed); the bundled copy spares the network. *)
Theorem cache_miss_takes_next_source (w : world) (text : string) (v : value) :
  cache_miss parse w ->
  served_text parse w text ->
  parse text = Some v ->
  exists w' es,
    getPriceData parse w = (Ok v, w')
    /\ files w' = cache_written w text
    /\ trace w' = es ++ trace w
    /\ In (WriteFile (cachePathOf w)) es
    /\ (text_at w (localPathOf w) = Some text ->
        forall url, ~ In (FetchRemote url) es).
Proof.
  intros Hmiss Hserved Hv.
  pose proof (getPriceData_cases w) as E. cbv zeta in E.
  rewrite (cache_miss_falls_through w Hmiss) in E.
  set (w1 := if is_fresh w
             then logs [ReadFile (cachePathOf w); Stat (cachePathOf w);
                        EnsureDir (cacheDir w)] w
             else logs [Stat (cachePathOf w); EnsureDir (cacheDir w)] w) in E.
  assert (H1 : exists es1, trace w1 = es1 ++ trace w
                           /\ forall url, ~ In (FetchRemote url) es1
                           /\ True).
  { subst w1. destruct (is_fresh w); eexists; (split; [apply trace_logs|]);
      intros url; (split; [|exact I]); cbn; intuition discriminate. }
  destruct H1 as (es1 & Ht1 & Hno1).
  destruct (served_text_parsed w text v Hserved Hv) as [Hl | [Hl Hr]].
  - rewrite Hl in E.
    eexists _, (WriteFile (cachePathOf w) :: ReadFile (localPathOf w) :: es1).
    split; [exact E|]. split; [reflexivity|]. split.
    + cbn [trace log set_files]. rewrite Ht1. reflexivity.
    + split; [left; reflexivity|].
      intros _ url [H|[H|H]]; try discriminate. exact (proj1 (Hno1 url) H).
  - rewrite Hl, Hr in E.
    eexists _, (WriteFile (cachePathOf w) :: FetchRemote Config.dataURL
                :: ReadFile (localPathOf w) :: es1).
    split; [exact E|]. split; [reflexivity|]. split.
    + cbn [trace log set_files]. rewrite Ht1. reflexivity.
    + split; [left; reflexivity|].
      intros Hl'. unfold parsed in Hl. rewrite Hl', Hv in Hl. discriminate.
Qed.

(** X16.  An expired cache is still the answer when neither the bundled
    copy nor the remote gives one; nothing is written. *)
Theorem stale_cache_is_served (w : world) (text : string) (v : value) :
  cache_expired w ->
  text_at w (cachePathOf w) = Some text ->
  parse text = Some v ->
  unparseable parse (content <$> files w !! localPathOf w) ->
  unparseable parse (remote w) ->
  exists w',
    getPriceData parse w = (Ok v, w')
    /\ files w' = files w
    /\ In (FetchRemote Config.dataURL) (trace w').
Proof.
  intros Hexp Htext Hv Hlocal Hremote.
  pose proof (getPriceData_cases w) as E. cbv zeta in E.
  rewrite (cache_miss_falls_through w (or_introl Hexp)) in E.
  unfold text_at in E at 1.
  rewrite (unparseable_parsed _ Hlocal), (unparseable_parsed _ Hremote) in E.
  unfold parsed in E. rewrite Htext, Hv in E.
  eexists. split; [exact E|].
  split; [destruct (is_fresh w); reflexivity|right; left; reflexivity].
Qed.

Lemma refreshed_world (w : world) (text : string) (v : value) :
  cache_miss parse w ->
  served_text parse w text ->
  parse text = Some v ->
  exists w',
    getPriceData parse w = (Ok v, w')
    /\ files w' = cache_written w text
    /\ cacheDir w' = cacheDir w.
Proof.
  intros Hmiss Hserved Hv.
  pose proof (getPriceData_cases w) as E. cbv zeta in E.
  rewrite (cache_miss_falls_through w Hmiss) in E.
  destruct (served_text_parsed w text v Hserved Hv) as [Hl | [Hl Hr]].
  - rewrite Hl in E. eexists. split; [exact E|].
    split; [reflexivity|]. destruct (is_fresh w); reflexivity.
  - rewrite Hl, Hr in E. eexists. split; [exact E|].
    split; [reflexivity|]. destruct (is_fresh w); reflexivity.
Qed.

(** X17.  Once a call has refreshed the cache, a later call made less than
    one TTL after it answers from the cache file alone. *)
Theorem second_call_hits_cache (w : world) (text : string) (v : value) (t : Z) :
  cache_miss parse w ->
  served_text parse w text ->
  parse text = Some v ->
  clock w <> 0%Z ->
  (t - clock w < Config.cacheTTL)%Z ->
  let later := set_clock t (snd (getPriceData parse w)) in
  getPriceData parse later
  = (Ok v,
     logs [ReadFile (cachePathOf w); Stat (cachePathOf w); EnsureDir (cacheDir w)]
       later).
Proof.
  intros Hmiss Hserved Hv Hclock Ht later.
  destruct (refreshed_world w text v Hmiss Hserved Hv) as (w' & E & Hfiles & Hcd).
  assert (Hne : nonempty (Some text) = Some text).
  { destruct Hserved as [H | [_ H]].
    - unfold text_at in H. rewrite <- H. apply nonempty_idem.
    - rewrite <- H. apply nonempty_idem. }
  subst later. rewrite E. cbn [snd].
  assert (Hcp : cachePathOf (set_clock t w') = cachePathOf w)
    by (unfold cachePathOf; cbn [cacheDir set_clock]; rewrite Hcd; reflexivity).
  assert (Hlook : files (set_clock t w') !! cachePathOf w
                  = Some {| content := text; mtime := clock w |}).
  { cbn [files set_clock]. rewrite Hfiles. unfold cache_written.
    apply lookup_insert_eq. }
  pose proof (getPriceData_cases (set_clock t w')) as C. cbv zeta in C.
  rewrite Hcp in C.
  assert (Hfresh : is_fresh (set_clock t w') = true).
  { unfold is_fresh. rewrite Hcp, Hlook. cbn [mtime clock set_clock].
    apply andb_true_iff. split.
    - apply negb_true_iff, Z.eqb_neq. assumption.
    - apply Z.ltb_lt. assumption. }
  rewrite Hfresh in C.
  assert (Hparsed : parsed parse (text_at (set_clock t w') (cachePathOf w))
                    = Some (text, v)).
  { unfold parsed, text_at. rewrite Hlook.
    change (content <$> Some {| content := text; mtime := clock w |})
      with (Some text).
    rewrite Hne, Hv. reflexivity. }
  rewrite Hparsed in C. rewrite C.
  cbn [cacheDir set_clock]. rewrite Hcd. reflexivity.
Qed.


(** X19.  The answer is [null] or what one of the three texts (cache file,
    bundled copy, remote) parses to. *)
Theorem answer_comes_from_a_source (w : world) :
  exists v,
    fst (getPriceData parse w) = Ok v
    /\ (v = null
        \/ exists text,
             (text_at w (cachePathOf w) = Some text
              \/ text_at w (localPathOf w) = Some text
              \/ nonempty (remote w) = Some text)
             /\ parse text = Some v).
Proof.
  assert (Hsrc : forall o text v, parsed parse o = Some (text, v) ->
                 o = Some text /\ parse text = Some v).
  { intros o text v H. unfold parsed in H. destruct o as [t'|]; [|discriminate].
    destruct (parse t') eqn:Hp; [|discriminate]. injection H as <- <-. auto. }
  pose proof (getPriceData_cases w) as C. cbv zeta in C. rewrite C. clear C.
  destruct (if is_fresh w then parsed parse (text_at w (cachePathOf w)) else None)
    as [[t0 v0]|] eqn:Hc.
  { exists v0. split; [reflexivity|]. right. exists t0.
    destruct (is_fresh w); [|discriminate].
    destruct (Hsrc _ _ _ Hc). auto. }
  destruct (parsed parse (text_at w (localPathOf w))) as [[t1 v1]|] eqn:Hl.
  { exists v1. split; [reflexivity|]. right. exists t1.
    destruct (Hsrc _ _ _ Hl). auto. }
  destruct (parsed parse (nonempty (remote w))) as [[t2 v2]|] eqn:Hr.
  { exists v2. split; [reflexivity|]. right. exists t2.
    destruct (Hsrc _ _ _ Hr). auto. }
  destruct (parsed parse (text_at w (cachePathOf w))) as [[t3 v3]|] eqn:Hs.
  { exists v3. split; [reflexivity|]. right. exists t3.
    destruct (Hsrc _ _ _ Hs). auto. }
  exists null. split; [reflexivity|left; reflexivity].
Qed.
End ResolverSteps.

Lemma cache_miss_takes_next_source_witness :
  exists w' es,
    getPriceData sample_parse world_epoch
    = (Ok (Some (sample_document "bundled")), w')
    /\ files w' = cache_written world_epoch "{bundled dataset}"
    /\ trace w' = es ++ trace world_epoch
    /\ In (WriteFile (cachePathOf world_epoch)) es
    /\ (text_at world_epoch (localPathOf world_epoch) = Some "{bundled dataset}" ->
        forall url, ~ In (FetchRemote url) es).
Proof.
  apply (cache_miss_takes_next_source sample_parse world_epoch).
  - left. left. reflexivity.
  - left. reflexivity.
  - reflexivity.
Defined.

Lemma stale_cache_is_served_witness :
  exists w',
    getPriceData sample_parse world_stale
    = (Ok (Some (sample_document "cached")), w')
    /\ files w' = files world_stale
    /\ In (FetchRemote Config.dataURL) (trace w').
Proof.
  apply (stale_cache_is_served sample_parse world_stale "{cached dataset}").
  - right. discriminate.
  - reflexivity.
  - reflexivity.
  - exact I.
  - exact I.
Defined.

Lemma second_call_hits_cache_witness :
  getPriceData sample_parse
    (set_clock 1700000060000 (snd (getPriceData sample_parse world_remote)))
  = (Ok (Some (sample_document "bundled")),
     logs [ReadFile "/cache/prices.json"; Stat "/cache/prices.json";
           EnsureDir "/cache"]
       (set_clock 1700000060000 (snd (getPriceData sample_parse world_remote)))).
Proof.
  apply (second_call_hits_cache sample_parse world_remote "{bundled dataset}").
  - left. exact I.
  - right. split; [exact I|reflexivity].
  - reflexivity.
  - discriminate.
  - reflexivity.
Defined.

(** ** Queries *)

(** ** Strings *)

Lemma append_cons (c : ascii) (s t : string) :
  (String c s ++ t)%string = String c (s ++ t)%string.
Proof. reflexivity. Qed.

Lemma append_nil_l (s : string) : ("" ++ s)%string = s.
Proof. reflexivity. Qed.

Lemma starts_with_spec (p s : string) :
  Str.starts_with p s = true <-> exists rest, s = (p ++ rest)%string.
Proof.
  revert s. induction p as [|a p IH]; intros s.
  - split; [intros _; exists s; reflexivity|]. intros _. destruct s; reflexivity.
  - destruct s as [|b s]; cbn [Str.starts_with].
    + split; [discriminate|]. intros [rest H]. rewrite append_cons in H. discriminate.
    + rewrite andb_true_iff, IH. split.
      * intros [Hab [rest ->]]. apply Ascii.eqb_eq in Hab. subst b.
        exists rest. reflexivity.
      * intros [rest H]. rewrite append_cons in H. injection H as -> ->.
        split; [apply Ascii.eqb_refl|]. exists rest. reflexivity.
Qed.

Lemma includes_spec (q s : string) :
  Str.includes q s = true
  <-> exists before after, s = (before ++ q ++ after)%string.
Proof.
  induction s as [|c s IH].
  - cbn [Str.includes]. rewrite orb_false_r, starts_with_spec. split.
    + intros [rest H]. exists "", rest. exact H.
    + intros [before [after H]]. destruct before as [|b before].
      * exists after. exact H.
      * rewrite append_cons in H. discriminate.
  - cbn [Str.includes]. rewrite orb_true_iff, starts_with_spec, IH. split.
    + intros [[rest H] | [before [after H]]].
      * exists "", rest. exact H.
      * exists (String c before), after. rewrite append_cons, H. reflexivity.
    + intros [before [after H]]. destruct before as [|b before].
      * left. exists after. exact H.
      * right. rewrite append_cons in H. injection H as -> ->.
        exists before, after. reflexivity.
Qed.

Lemma filter_sublist {A : Type} (f : A -> bool) (l : list A) :
  sublist (List.filter f l) l.
Proof.
  induction l as [|x l IH]; cbn [List.filter]; [constructor|].
  destruct (f x); constructor; assumption.
Qed.

(** X20.  A non-empty query keeps, in their order, exactly the regions in
    whose ISO code or name it occurs, upper and lower case taken as the
    same. *)
Theorem filterRegions_keeps_matches (regions : list region) (query : string) :
  query <> "" ->
  sublist (filterRegions regions (Some query)) regions
  /\ forall r,
       In r (filterRegions regions (Some query))
       <-> In r regions
           /\ (occurs_ignoring_case query (CountryISO r)
               \/ occurs_ignoring_case query (Country r)).
Proof.
  intros Hq. unfold filterRegions.
  assert (Hne : nonempty (Some query) = Some query)
    by (destruct query; [contradiction|reflexivity]).
  rewrite Hne. split; [apply filter_sublist|].
  intros r. rewrite filter_In, orb_true_iff, !includes_spec.
  unfold occurs_ignoring_case. reflexivity.
Qed.

Lemma filterRegions_keeps_matches_witness :
  sublist (filterRegions some_regions (Some "jap")) some_regions
  /\ forall r,
       In r (filterRegions some_regions (Some "jap"))
       <-> In r some_regions
           /\ (occurs_ignoring_case "jap" (CountryISO r)
               \/ occurs_ignoring_case "jap" (Country r)).
Proof.
  apply (filterRegions_keeps_matches some_regions "jap").
  discriminate.
Defined.

(** ** Tokens *)

Lemma head_space_split (s : string) :
  Str.head_is_space s = true -> exists ps, Str.split_spaces s = "" :: ps.
Proof.
  induction s as [|c s IH]; [discriminate|].
  cbn [Str.head_is_space Str.split_spaces]. intros Hc. rewrite Hc.
  destruct (Str.head_is_space s).
  - apply IH. reflexivity.
  - eexists. reflexivity.
Qed.

Lemma split_spaces_nonempty (s : string) : Str.split_spaces s <> [].
Proof.
  induction s as [|c s IH]; cbn [Str.split_spaces]; [discriminate|].
  destruct (Str.is_space c).
  - destruct (Str.head_is_space s); [assumption|discriminate].
  - destruct (Str.split_spaces s); discriminate.
Qed.

Lemma split_spaces_word (t : string) :
  all_chars not_space t = true -> Str.split_spaces t = [t].
Proof.
  induction t as [|c t IH]; [reflexivity|].
  cbn [all_chars Str.split_spaces]. intros H.
  apply andb_true_iff in H. destruct H as [Hc Ht].
  unfold not_space in Hc. apply negb_true_iff in Hc. rewrite Hc.
  rewrite (IH Ht). reflexivity.
Qed.

Lemma split_spaces_cut (a : string) (c : ascii) (b : string) :
  Str.is_space c = true ->
  exists p ps ps',
    Str.split_spaces a = p :: ps
    /\ Str.split_spaces (a ++ String c b) = p :: ps'
    /\ List.filter (fun p => (0 <? String.length p)%nat) ps'
       = List.filter (fun p => (0 <? String.length p)%nat) ps
         ++ List.filter (fun p => (0 <? String.length p)%nat) (Str.split_spaces b).
Proof.
  intros Hc. induction a as [|x a IH].
  - rewrite append_nil_l. cbn [Str.split_spaces]. rewrite Hc.
    destruct (Str.head_is_space b) eqn:Hb.
    + destruct (head_space_split b Hb) as [ps0 E]. rewrite E.
      exists "", [], ps0. repeat split; reflexivity.
    + exists "", [], (Str.split_spaces b). repeat split; reflexivity.
  - destruct IH as (p & ps & ps' & E1 & E2 & E3).
    rewrite append_cons. cbn [Str.split_spaces].
    destruct (Str.is_space x).
    + destruct a as [|y a].
      * rewrite append_nil_l in *. cbn [Str.head_is_space]. rewrite Hc.
        rewrite E2. cbn [Str.split_spaces] in E1. injection E1 as <- <-.
        exists "", [""], ps'. repeat split; try reflexivity. exact E3.
      * rewrite append_cons in *. cbn [Str.head_is_space].
        destruct (Str.is_space y).
        -- rewrite E1, E2. exists p, ps, ps'. repeat split; try reflexivity. exact E3.
        -- rewrite E1, E2. exists "", (p :: ps), (p :: ps').
           repeat split; try reflexivity.
           cbn [List.filter]. rewrite E3.
           destruct (0 <? String.length p)%nat; reflexivity.
    + rewrite E1, E2. exists (String x p), ps, ps'.
      repeat split; try reflexivity. exact E3.
Qed.

(** X21.  The tokens of a query are its maximal runs of characters that are
    not white space: a word is its own single token, and the tokens of
    two texts joined by a white-space character are those of the first
    followed by those of the second. *)
Theorem tokens_cut_at_spaces :
  tokens "" = []
  /\ (forall word,
        word <> "" -> all_chars not_space word = true -> tokens word = [word])
  /\ (forall left c right,
        Str.is_space c = true ->
        tokens (left ++ String c right) = tokens left ++ tokens right).
Proof.
  split; [reflexivity|]. split.
  - intros word Hne Hword. unfold tokens. rewrite (split_spaces_word word Hword).
    destruct word; [contradiction|reflexivity].
  - intros left c right Hc. unfold tokens.
    destruct (split_spaces_cut left c right Hc) as (p & ps & ps' & E1 & E2 & E3).
    rewrite E1, E2. cbn [List.filter]. rewrite E3.
    destruct (0 <? String.length p)%nat; reflexivity.
Qed.

(** ** Ranked items *)

Lemma rankedItems_item (sel : string) (l : list region) (idx : nat) (it : item) :
  In it (rankedItems sel idx l) ->
  In (item_region it) l
  /\ item_planName it = sel
  /\ find_plan sel (Plans (item_region it)) = Some (item_plan it).
Proof.
  revert idx. induction l as [|r l IH]; intros idx; cbn [rankedItems]; [intros H; destruct H|].
  destruct (find_plan sel (Plans r)) as [p|] eqn:Hp.
  - intros [<- | Hin].
    + cbn. auto.
    + destruct (IH _ Hin) as (H1 & H2 & H3). cbn. auto.
  - intros Hin. destruct (IH _ Hin) as (H1 & H2 & H3). cbn. auto.
Qed.

Lemma rankedItems_price (sel : string) (l : list region) (idx : nat) (it : item) :
  In it (rankedItems sel idx l) ->
  item_price it = tier_key sel (item_region it).
Proof.
  intros Hin. destruct (rankedItems_item _ _ _ _ Hin) as (_ & _ & Hf).
  unfold item_price, tier_key. rewrite Hf. reflexivity.
Qed.

Lemma rankedItems_sorted (sel : string) (l : list region) (idx : nat) :
  StronglySorted (fun a b => key_le (tier_key sel a) (tier_key sel b)) l ->
  StronglySorted (fun a b => key_le (item_price a) (item_price b))
    (rankedItems sel idx l).
Proof.
  intros Hs. revert idx.
  induction Hs as [|r l Hl IH Hr]; intros idx; cbn [rankedItems]; [constructor|].
  destruct (find_plan sel (Plans r)) as [p|] eqn:Hp; [|apply IH].
  constructor; [apply IH|].
  apply List.Forall_forall. intros it Hin.
  rewrite (rankedItems_price _ _ _ _ Hin).
  destruct (rankedItems_item _ _ _ _ Hin) as (Hreg & _ & _).
  rewrite List.Forall_forall in Hr. specialize (Hr _ Hreg).
  unfold item_price at 1. cbn [item_plan createItem].
  unfold tier_key at 1 in Hr. rewrite Hp in Hr. exact Hr.
Qed.

Lemma find_plan_name (name : string) (plans : list plan) (p : plan) :
  find_plan name plans = Some p -> Name p = name.
Proof.
  intros H. apply find_some in H. destruct H as [_ H].
  apply String.eqb_eq. exact H.
Qed.

(** X22.  The ranked list of a query shows the cheapest region first: the
    prices of its items never decrease, every item shows the selected
    tier, and it is a plan of a region the filter left. *)
Theorem ranked_items_cheapest_first (filtered : list region)
    (selectedPlan : string) (searchQuery : option string) :
  nonempty searchQuery = None \/ length filtered <> 1%nat ->
  Forall finite_prices filtered ->
  let items := queryItems filtered selectedPlan searchQuery in
  StronglySorted (fun a b => key_le (item_price a) (item_price b)) items
  /\ Forall (fun it =>
               In (item_region it) filtered
               /\ In (item_plan it) (Plans (item_region it))
               /\ Name (item_plan it) = selectedPlan
               /\ item_planName it = selectedPlan) items.
Proof.
  intros Hpath Hfin items.
  assert (Hitems : items = rankedItems selectedPlan 0 (sortByPrice filtered selectedPlan))
    by (apply queryItems_ranked; assumption).
  rewrite Hitems.
  destruct (sortByPrice_ranked filtered selectedPlan Hfin) as (Hperm & Hsorted & _).
  split.
  - apply rankedItems_sorted. exact Hsorted.
  - apply List.Forall_forall. intros it Hin.
    destruct (rankedItems_item _ _ _ _ Hin) as (Hreg & Hname & Hfind).
    split; [|split; [|split]].
    + eapply Permutation_in; [exact Hperm|exact Hreg].
    + apply (find_plan_In selectedPlan). exact Hfind.
    + apply (find_plan_name selectedPlan (Plans (item_region it))). exact Hfind.
    + exact Hname.
Qed.

Lemma ranked_items_cheapest_first_witness :
  let items := queryItems some_regions "50GB" None in
  StronglySorted (fun a b => key_le (item_price a) (item_price b)) items
  /\ Forall (fun it =>
               In (item_region it) some_regions
               /\ In (item_plan it) (Plans (item_region it))
               /\ Name (item_plan it) = "50GB"
               /\ item_planName it = "50GB") items.
Proof.
  apply (ranked_items_cheapest_first some_regions "50GB" None).
  - left. reflexivity.
  - repeat constructor.
Defined.

Lemma filter_Permutation {A : Type} (f : A -> bool) (l l' : list A) :
  Permutation l l' -> Permutation (List.filter f l) (List.filter f l').
Proof.
  induction 1 as [|x l l' _ IH|x y l|l l' l'' _ IH1 _ IH2]; cbn [List.filter].
  - constructor.
  - destruct (f x); [constructor|]; exact IH.
  - destruct (f x), (f y); try reflexivity. constructor.
  - etransitivity; eassumption.
Qed.

Lemma append_cancel_r (a b t : string) :
  (a ++ t)%string = (b ++ t)%string -> a = b.
Proof.
  revert b. induction a as [|x a IH]; intros [|y b] H.
  - reflexivity.
  - exfalso. apply (f_equal String.length) in H.
    change ("" ++ t)%string with t in H.
    change (String y b ++ t)%string with (String y (b ++ t)%string) in H.
    cbn [String.length] in H. rewrite string_length_app in H. lia.
  - exfalso. apply (f_equal String.length) in H.
    change ("" ++ t)%string with t in H.
    change (String x a ++ t)%string with (String x (a ++ t)%string) in H.
    cbn [String.length] in H. rewrite string_length_app in H. lia.
  - change (String x (a ++ t)%string = String y (b ++ t)%string) in H.
    injection H as -> H. rewrite (IH b H). reflexivity.
Qed.

Lemma rankedItems_uid (sel : string) (l : list region) (idx : nat) :
  List.map uid (rankedItems sel idx l)
  = List.map (fun r => (CountryISO r ++ "-" ++ sel)%string)
      (List.filter (has_plan sel) l).
Proof.
  revert idx. induction l as [|r l IH]; intros idx; [reflexivity|].
  cbn [rankedItems List.filter]. unfold has_plan at 1.
  destruct (find_plan sel (Plans r)); cbn [List.map]; rewrite IH; reflexivity.
Qed.

Lemma NoDup_filter_map {A B : Type} (g : A -> B) (f : A -> bool) (l : list A) :
  List.NoDup (List.map g l) -> List.NoDup (List.map g (List.filter f l)).
Proof.
  induction l as [|x l IH]; cbn [List.map List.filter]; [auto|].
  intros H. inversion H as [|? ? Hnot Hrest]; subst.
  destruct (f x); [|apply IH; assumption].
  cbn [List.map]. constructor; [|apply IH; assumption].
  intros Hin. apply Hnot. apply in_map_iff in Hin.
  destruct Hin as (y & Hy & Hin). apply filter_In in Hin.
  apply in_map_iff. exists y. tauto.
Qed.

Lemma NoDup_map_injective {A B : Type} (g : A -> B) (l : list A) :
  (forall a b, g a = g b -> a = b) ->
  List.NoDup l -> List.NoDup (List.map g l).
Proof.
  intros Hg. induction 1 as [|x l Hnot _ IH]; cbn [List.map]; constructor.
  - intros Hin. apply in_map_iff in Hin. destruct Hin as (y & Hy & Hin).
    apply Hg in Hy. subst y. contradiction.
  - exact IH.
Qed.

(** X23.  In the ranked list every region the filter left that offers the
    selected tier appears exactly once, and when the ISO codes of the
    regions differ so do the uids of the items. *)
Theorem every_priced_region_is_listed (filtered : list region)
    (selectedPlan : string) (searchQuery : option string) :
  nonempty searchQuery = None \/ length filtered <> 1%nat ->
  let items := queryItems filtered selectedPlan searchQuery in
  Permutation (List.map item_region items)
    (List.filter (has_plan selectedPlan) filtered)
  /\ (List.NoDup (List.map CountryISO filtered) -> List.NoDup (List.map uid items)).
Proof.
  intros Hpath items.
  assert (Hitems : items = rankedItems selectedPlan 0 (sortByPrice filtered selectedPlan))
    by (apply queryItems_ranked; assumption).
  pose proof (sort_perm (comparePlan selectedPlan) filtered) as Hperm.
  fold (sortByPrice filtered selectedPlan) in Hperm.
  rewrite Hitems. split.
  - rewrite rankedItems_regions. apply filter_Permutation. exact Hperm.
  - intros Hiso. rewrite rankedItems_uid.
    assert (Hsorted : List.NoDup (List.map CountryISO
                                    (sortByPrice filtered selectedPlan))).
    { eapply Permutation_NoDup; [|exact Hiso].
      apply Permutation_map. symmetry. exact Hperm. }
    apply (NoDup_filter_map CountryISO (has_plan selectedPlan)) in Hsorted.
    rewrite <- (List.map_map CountryISO (fun iso => (iso ++ "-" ++ selectedPlan)%string)).
    apply NoDup_map_injective; [|exact Hsorted].
    intros a b Hab. exact (append_cancel_r a b _ Hab).
Qed.

Lemma every_priced_region_is_listed_witness :
  let items := queryItems some_regions "50GB" None in
  Permutation (List.map item_region items)
    (List.filter (has_plan "50GB") some_regions)
  /\ (List.NoDup (List.map CountryISO some_regions)
      -> List.NoDup (List.map uid items)).
Proof.
  apply (every_priced_region_is_listed some_regions "50GB" None).
  left. reflexivity.
Defined.

(** ** The entry point *)

Lemma lower_char_idem (c : ascii) :
  Str.lower_char (Str.lower_char c) = Str.lower_char c.
Proof. destruct c as [[] [] [] [] [] [] [] []]; reflexivity. Qed.

Lemma toLowerCase_app (s t : string) :
  Str.toLowerCase (s ++ t) = (Str.toLowerCase s ++ Str.toLowerCase t)%string.
Proof.
  induction s as [|c s IH]; [reflexivity|].
  rewrite append_cons. unfold Str.toLowerCase in *. cbn [Str.map].
  rewrite IH. reflexivity.
Qed.

Lemma toLowerCase_idem (s : string) :
  Str.toLowerCase (Str.toLowerCase s) = Str.toLowerCase s.
Proof.
  induction s as [|c s IH]; [reflexivity|].
  unfold Str.toLowerCase in *. cbn [Str.map].
  rewrite IH, lower_char_idem. reflexivity.
Qed.

Lemma toLowerCase_join (argv : list string) :
  Str.toLowerCase (Str.join_with " " (List.map Str.toLowerCase argv))
  = Str.toLowerCase (Str.join_with " " argv).
Proof.
  induction argv as [|a [|b argv] IH].
  - reflexivity.
  - apply toLowerCase_idem.
  - change (Str.toLowerCase
              (Str.toLowerCase a ++ " "
               ++ Str.join_with " " (List.map Str.toLowerCase (b :: argv)))
            = Str.toLowerCase (a ++ " " ++ Str.join_with " " (b :: argv))).
    rewrite !toLowerCase_app, IH, toLowerCase_idem. reflexivity.
Qed.

Section RunSteps.
Variable parse : string -> option value.



Lemma readTokens_long (parts : list string) (q : string) :
  snd (readTokens parts) = Some q -> nonempty (Some q) = Some q.
Proof.
  unfold readTokens. rewrite readTokens_from. cbn [snd].
  destruct (last (List.filter is_region_token parts)) as [t|] eqn:Ht; [|discriminate].
  intros H. injection H as <-.
  apply last_filter_holds in Ht. unfold is_region_token in Ht.
  apply andb_true_iff in Ht. destruct Ht as [_ Ht].
  destruct t; [discriminate|reflexivity].
Qed.

(** X26.  When the query names a region and the filter leaves exactly one,
    the answer lists every plan of that region in stored order, each
    without a rank, whatever tier the query names. *)
Theorem single_region_lists_every_plan (argv : list string) (w w' : world)
    (data : dataset) (q : string) (r : region) :
  asks_for_help argv = false ->
  getPriceData parse w = (Ok (Some data), w') ->
  snd (readTokens (tokens (query_of argv))) = Some q ->
  filterRegions (regions data) (Some q) = [r] ->
  exists notice,
    run parse argv w
    = (Ok (ItemsOutput
             (List.map (fun p => PlanEntry (createItem r p (Name p) Dash)) (Plans r)
              ++ notice)), w')
    /\ (notice = [] \/ notice = [UpdatedEntry (lastUpdated data)]).
Proof.
  intros Hhelp Hdata Hq Hfilter.
  pose proof (readTokens_long _ _ Hq) as Hne.
  unfold asks_for_help, query_of in Hhelp. unfold query_of in Hq.
  unfold run. rewrite Hhelp.
  destruct (readTokens _) as [sp sq]. cbn [snd] in Hq. subst sq.
  unfold bind. rewrite Hdata.
  destruct (regions data) as [|r0 rs] eqn:Hregions.
  { unfold filterRegions in Hfilter. rewrite Hne in Hfilter. discriminate. }
  cbn [length Nat.eqb]. rewrite Hfilter. cbn [length Nat.eqb].
  unfold queryItems. rewrite Hne. unfold allPlans. rewrite List.map_map.
  destruct (nonempty (Some (lastUpdated data))) as [updated|] eqn:Hup.
  - exists [UpdatedEntry updated]. split; [reflexivity|]. right.
    destruct (lastUpdated data); [discriminate|].
    injection Hup as <-. reflexivity.
  - exists []. split; [|left; reflexivity].
    rewrite app_nil_r. reflexivity.
Qed.

End RunSteps.

(** "2TB cn" over a dataset whose only match has a single 50GB plan:
    the 50GB plan is listed. *)
Lemma single_region_lists_every_plan_witness :
  exists notice,
    run sample_parse ["2TB"; "cn"] world_fresh
    = (Ok (ItemsOutput
             (List.map
                (fun p => PlanEntry (createItem (priced "CN" "China" "50GB" "6") p
                                       (Name p) Dash))
                (Plans (priced "CN" "China" "50GB" "6"))
              ++ notice)),
       snd (getPriceData sample_parse world_fresh))
    /\ (notice = [] \/ notice = [UpdatedEntry (lastUpdated (sample_document "cached"))]).
Proof.
  apply (single_region_lists_every_plan sample_parse ["2TB"; "cn"] world_fresh
           (snd (getPriceData sample_parse world_fresh))
           (sample_document "cached") "cn" (priced "CN" "China" "50GB" "6")).
  - reflexivity.
  - reflexivity.
  - reflexivity.
  - reflexivity.
Defined.

(** ** getFlag *)

Lemma upper_letter (c : ascii) :
  is_ascii_letter c = true ->
  (Z.of_nat (Str.code (Str.upper_char c)) + 127397)%Z
  = regional_indicator (alphabet_index c)
  /\ (0 <= alphabet_index c < 26)%Z.
Proof.
  destruct c as [[] [] [] [] [] [] [] []]; vm_compute; intros H;
    try discriminate H; repeat split; intros; discriminate.
Qed.

(** X27.  The flag of an ISO code made of basic Latin letters, in capitals
    or not, is the sequence of the regional indicator symbols of its
    letters: the symbol of the letter at place n of the alphabet is
    U+1F1E6 + n. *)
Theorem getFlag_is_regional_indicators (iso : string) :
  all_chars is_ascii_letter iso = true ->
  getFlag iso
  = List.map (fun c => regional_indicator (alphabet_index c))
      (list_ascii_of_string iso)
  /\ Forall (fun cp => (127462 <= cp <= 127487)%Z) (getFlag iso).
Proof.
  unfold getFlag, Str.toUpperCase. induction iso as [|c iso IH]; intros Hiso.
  - split; [reflexivity|constructor].
  - cbn [all_chars] in Hiso. apply andb_true_iff in Hiso.
    destruct Hiso as [Hc Hiso]. destruct (IH Hiso) as [IH1 IH2].
    destruct (upper_letter c Hc) as [Hflag Hplace].
    cbn [Str.map list_ascii_of_string List.map]. rewrite Hflag, IH1.
    split; [reflexivity|]. rewrite <- IH1.
    constructor; [|exact IH2].
    unfold regional_indicator. lia.
Qed.

Lemma getFlag_is_regional_indicators_witness :
  getFlag "jp"
  = List.map (fun c => regional_indicator (alphabet_index c))
      (list_ascii_of_string "jp")
  /\ Forall (fun cp => (127462 <= cp <= 127487)%Z) (getFlag "jp").
Proof.
  apply (getFlag_is_regional_indicators "jp").
  reflexivity.
Defined.
